(** * Axle landing page: the behaviour layer of [app.js]

    A shallow embedding of the script's in-memory session state, its event
    tracker, its form validator, its modal controller, its submission flows
    and its countdown, followed by the properties proved about them.

    Conventions of the embedding.
    - A JavaScript string is the list of its UTF-16 code units ([list N]);
      [js "..."] turns a literal of the source into that list.
    - Property names of object literals are Rocq strings; an object is a
      finite map from property names to values.
    - Integers that the script holds in doubles (milliseconds, lengths,
      percentages) are [Z]; every one of them stays far below 2^53, where
      doubles are exact.
    - The system clock is an oracle carried by the world; what else a
      handler reads from the browser (the random source, the scroll
      position, the text a user typed) is an argument of the handler.
    - [console.log] lines are diagnostics and are not modelled. *)

From Stdlib Require Import ZArith NArith QArith List Bool String Ascii Lia.
From Stdlib Require Import DecimalString.
From stdpp Require Import gmap strings list fin_maps.

Close Scope Q_scope.
Open Scope Z_scope.

(** ** JavaScript strings *)

Abbreviation jsstring := (list N).

Fixpoint js (s : string) : jsstring :=
  match s with
  | EmptyString => []
  | String a s' => N_of_ascii a :: js s'
  end.

(** [String.prototype.includes]: [needle] occurs somewhere in [hay]. *)
Fixpoint starts_with (needle hay : jsstring) : bool :=
  match needle, hay with
  | [], _ => true
  | _ :: _, [] => false
  | a :: needle', b :: hay' => N.eqb a b && starts_with needle' hay'
  end.

Fixpoint includes (needle hay : jsstring) : bool :=
  starts_with needle hay ||
  match hay with
  | [] => false
  | _ :: hay' => includes needle hay'
  end.

Definition jsstring_eqb (a b : jsstring) : bool := bool_decide (a = b).

(** The code units that [\s] matches and that [trim] strips: WhiteSpace and
    LineTerminator of ECMAScript. *)
Definition is_space (c : N) : bool :=
  ((9 <=? c) && (c <=? 13) || (c =? 32) || (c =? 160) || (c =? 5760)
   || (8192 <=? c) && (c <=? 8202)
   || (c =? 8232) || (c =? 8233) || (c =? 8239) || (c =? 8287)
   || (c =? 12288) || (c =? 65279))%N.

Definition is_digit (c : N) : bool := ((48 <=? c) && (c <=? 57))%N.
Definition is_upper (c : N) : bool := ((65 <=? c) && (c <=? 90))%N.
Definition is_lower (c : N) : bool := ((97 <=? c) && (c <=? 122))%N.

Fixpoint trim_start (s : jsstring) : jsstring :=
  match s with
  | c :: s' => if is_space c then trim_start s' else s
  | [] => []
  end.

(** [String.prototype.trim] *)
Definition trim (s : jsstring) : jsstring :=
  rev (trim_start (rev (trim_start s))).

(** ** Regular expressions

    The three patterns of the script are anchored at both ends and carry no
    flag, so [test] asks whether the whole string belongs to the language.
    Matching is by Brzozowski derivatives. *)

Inductive regex : Type :=
| Void
| Eps
| Class (p : N -> bool)
| Cat (r1 r2 : regex)
| Alt (r1 r2 : regex)
| Star (r : regex).

Definition Plus (r : regex) : regex := Cat r (Star r).
Definition Chr (c : N) : regex := Class (N.eqb c).

Fixpoint nullable (r : regex) : bool :=
  match r with
  | Void => false
  | Eps => true
  | Class _ => false
  | Cat r1 r2 => nullable r1 && nullable r2
  | Alt r1 r2 => nullable r1 || nullable r2
  | Star _ => true
  end.

Fixpoint deriv (c : N) (r : regex) : regex :=
  match r with
  | Void => Void
  | Eps => Void
  | Class p => if p c then Eps else Void
  | Cat r1 r2 =>
      if nullable r1 then Alt (Cat (deriv c r1) r2) (deriv c r2)
      else Cat (deriv c r1) r2
  | Alt r1 r2 => Alt (deriv c r1) (deriv c r2)
  | Star r1 => Cat (deriv c r1) (Star r1)
  end.

Fixpoint test (r : regex) (s : jsstring) : bool :=
  match s with
  | [] => nullable r
  | c :: s' => test (deriv c r) s'
  end.

(** The language of a pattern, as the reference for [test]. *)
Inductive lang : regex -> jsstring -> Prop :=
| L_eps : lang Eps []
| L_class p c : p c = true -> lang (Class p) [c]
| L_cat r1 r2 s1 s2 : lang r1 s1 -> lang r2 s2 -> lang (Cat r1 r2) (s1 ++ s2)
| L_alt_l r1 r2 s : lang r1 s -> lang (Alt r1 r2) s
| L_alt_r r1 r2 s : lang r2 s -> lang (Alt r1 r2) s
| L_star_nil r : lang (Star r) []
| L_star_cons r s1 s2 : lang r s1 -> lang (Star r) s2 -> lang (Star r) (s1 ++ s2).

(** [/^[^\s@]+@[^\s@]+\.[^\s@]+$/] *)
Definition not_space_at (c : N) : bool := negb (is_space c || (c =? 64)%N).

Definition emailRegex : regex :=
  Cat (Plus (Class not_space_at))
    (Cat (Chr 64)
       (Cat (Plus (Class not_space_at))
          (Cat (Chr 46) (Plus (Class not_space_at))))).

(** [/^[a-zA-Z\s]{2,}$/] *)
Definition letter_or_space (c : N) : bool :=
  is_lower c || is_upper c || is_space c.

Definition nameRegex : regex :=
  Cat (Class letter_or_space) (Cat (Class letter_or_space) (Star (Class letter_or_space))).

(** [/^[0-9]*$/] *)
Definition digitsRegex : regex := Star (Class is_digit).

(** [/\D/g] of [formatPhoneNumber]: [replace] deletes every non-digit. *)
Definition strip_non_digits (s : jsstring) : jsstring := filter (fun c => is_digit c = true) s.

(** ** Numbers read from strings and written into strings *)

(** A JavaScript number: finite, or one of the three special values. The
    scroll handler can see them when the document is not taller than the
    window; [parseInt] yields [NaN] when it finds no digit. *)
Inductive jsnum : Type :=
| Fin (z : Z)
| NaN
| PosInf
| NegInf.

(** [a >= b] and [a < b] for a number [a] against an integer [b]. *)
Definition num_ge (a : jsnum) (b : Z) : bool :=
  match a with
  | Fin z => b <=? z
  | PosInf => true
  | NaN | NegInf => false
  end.

Definition int_lt_num (a : Z) (b : jsnum) : bool :=
  match b with
  | Fin z => a <? z
  | PosInf => true
  | NaN | NegInf => false
  end.

Definition digit_value (radix : Z) (c : N) : option Z :=
  let v := if is_digit c then Some (Z.of_N c - 48)
           else if is_lower c then Some (Z.of_N c - 97 + 10)
           else if is_upper c then Some (Z.of_N c - 65 + 10)
           else None in
  match v with
  | Some d => if d <? radix then Some d else None
  | None => None
  end.

(** The longest prefix of digits of the radix, read as a number; [None]
    when that prefix is empty. *)
Fixpoint parse_digits (radix : Z) (acc : option Z) (s : jsstring) : option Z :=
  match s with
  | c :: s' =>
      match digit_value radix c with
      | Some d => parse_digits radix (Some (radix * default 0 acc + d)) s'
      | None => acc
      end
  | [] => acc
  end.

(** [parseInt(s)] without a radix: leading white space, a sign, an optional
    [0x] prefix, then digits. *)
Definition parseInt (s : jsstring) : jsnum :=
  let s1 := trim_start s in
  let '(sign, s2) :=
    match s1 with
    | c :: r => if (c =? 45)%N then (-1, r) else if (c =? 43)%N then (1, r) else (1, s1)
    | [] => (1, s1)
    end in
  let '(radix, s3) :=
    match s2 with
    | c :: x :: r =>
        if (c =? 48)%N && ((x =? 120)%N || (x =? 88)%N) then (16, r) else (10, s2)
    | _ => (10, s2)
    end in
  match parse_digits radix None s3 with
  | Some v => Fin (sign * v)
  | None => NaN
  end.

(** The decimal text a template literal gives an integer. *)
Definition int_to_string (z : Z) : jsstring := js (NilZero.string_of_int (Z.to_int z)).

Definition num_to_string (n : jsnum) : jsstring :=
  match n with
  | Fin z => int_to_string z
  | NaN => js "NaN"
  | PosInf => js "Infinity"
  | NegInf => js "-Infinity"
  end.

(** ** The document

    Only the parts of the page that the handlers below read or write. *)

(** The two forms whose fields are found by a query inside the form. *)
Inductive Form : Type := EnterpriseForm | CarrierForm.

#[global] Instance Form_eq_dec : EqDecision Form.
Proof. solve_decision. Defined.

(** An input element (or select, or textarea) of the page. [in_minlength]
    is [getAttribute('minlength')] when [hasAttribute('minlength')];
    [in_valid] and [in_invalid] are the two classes of the same names. *)
Record Input : Type := mkInput {
  in_id : jsstring;
  in_type : jsstring;
  in_value : jsstring;
  in_default : jsstring;
  in_required : bool;
  in_minlength : option jsstring;
  in_form : option Form;
  in_form_input : bool;
  in_phone_input : bool;
  in_valid : bool;
  in_invalid : bool
}.

Definition set_value (v : jsstring) (i : Input) : Input :=
  mkInput (in_id i) (in_type i) v (in_default i) (in_required i) (in_minlength i)
    (in_form i) (in_form_input i) (in_phone_input i) (in_valid i) (in_invalid i).

Definition set_marks (valid invalid : bool) (i : Input) : Input :=
  mkInput (in_id i) (in_type i) (in_value i) (in_default i) (in_required i)
    (in_minlength i) (in_form i) (in_form_input i) (in_phone_input i) valid invalid.

Inductive Modal : Type := choice | enterprise | carrier.

#[global] Instance Modal_eq_dec : EqDecision Modal.
Proof. solve_decision. Defined.

Definition modal_name (m : Modal) : jsstring :=
  match m with
  | choice => js "choice"
  | enterprise => js "enterprise"
  | carrier => js "carrier"
  end.

(** The loading state of a submit button and the success state of its form. *)
Record FormUi : Type := mkFormUi {
  submit_loading : bool;
  submit_disabled : bool;
  form_submitted : bool;
  success_show : bool
}.

(** [inputs] are the fields in document order. [texts] holds the
    [textContent] of the elements that [validateField] looks up by id.
    [choiceModal], [enterpriseModal] and [carrierModal] are [None] when
    [getElementById] found no element for the modal, and otherwise tell
    whether the element has the class [active]. The toast, the forms, their
    buttons and their success panels are dereferenced without a guard by
    the script and are always there. [countdownEl] is the text of the
    countdown element, when the page has one. *)
Record Dom : Type := mkDom {
  inputs : list Input;
  texts : gmap jsstring jsstring;
  toast_text : jsstring;
  toast_show : bool;
  choiceModal : option bool;
  enterpriseModal : option bool;
  carrierModal : option bool;
  body_overflow : jsstring;
  enterprise_ui : FormUi;
  carrier_ui : FormUi;
  email_form_display : jsstring;
  email_success_show : bool;
  chat_open : bool;
  countdownEl : option jsstring
}.

Definition set_inputs (l : list Input) (d : Dom) : Dom :=
  mkDom l (texts d) (toast_text d) (toast_show d) (choiceModal d) (enterpriseModal d)
    (carrierModal d) (body_overflow d) (enterprise_ui d) (carrier_ui d)
    (email_form_display d) (email_success_show d) (chat_open d) (countdownEl d).

Definition set_texts (t : gmap jsstring jsstring) (d : Dom) : Dom :=
  mkDom (inputs d) t (toast_text d) (toast_show d) (choiceModal d) (enterpriseModal d)
    (carrierModal d) (body_overflow d) (enterprise_ui d) (carrier_ui d)
    (email_form_display d) (email_success_show d) (chat_open d) (countdownEl d).

Definition set_toast (t : jsstring) (shown : bool) (d : Dom) : Dom :=
  mkDom (inputs d) (texts d) t shown (choiceModal d) (enterpriseModal d)
    (carrierModal d) (body_overflow d) (enterprise_ui d) (carrier_ui d)
    (email_form_display d) (email_success_show d) (chat_open d) (countdownEl d).

Definition modal_el (m : Modal) (d : Dom) : option bool :=
  match m with
  | choice => choiceModal d
  | enterprise => enterpriseModal d
  | carrier => carrierModal d
  end.

(** [classList.add('active')] / [classList.remove('active')] on a modal
    element that exists. *)
Definition set_modal_active (m : Modal) (a : bool) (d : Dom) : Dom :=
  mkDom (inputs d) (texts d) (toast_text d) (toast_show d)
    (match m with choice => Some a | _ => choiceModal d end)
    (match m with enterprise => Some a | _ => enterpriseModal d end)
    (match m with carrier => Some a | _ => carrierModal d end)
    (body_overflow d) (enterprise_ui d) (carrier_ui d)
    (email_form_display d) (email_success_show d) (chat_open d) (countdownEl d).

Definition set_body_overflow (o : jsstring) (d : Dom) : Dom :=
  mkDom (inputs d) (texts d) (toast_text d) (toast_show d) (choiceModal d)
    (enterpriseModal d) (carrierModal d) o (enterprise_ui d) (carrier_ui d)
    (email_form_display d) (email_success_show d) (chat_open d) (countdownEl d).

Definition form_ui (f : Form) (d : Dom) : FormUi :=
  match f with
  | EnterpriseForm => enterprise_ui d
  | CarrierForm => carrier_ui d
  end.

Definition set_form_ui (f : Form) (u : FormUi) (d : Dom) : Dom :=
  mkDom (inputs d) (texts d) (toast_text d) (toast_show d) (choiceModal d)
    (enterpriseModal d) (carrierModal d) (body_overflow d)
    (match f with EnterpriseForm => u | _ => enterprise_ui d end)
    (match f with CarrierForm => u | _ => carrier_ui d end)
    (email_form_display d) (email_success_show d) (chat_open d) (countdownEl d).

Definition set_email_ui (display : jsstring) (success : bool) (d : Dom) : Dom :=
  mkDom (inputs d) (texts d) (toast_text d) (toast_show d) (choiceModal d)
    (enterpriseModal d) (carrierModal d) (body_overflow d) (enterprise_ui d)
    (carrier_ui d) display success (chat_open d) (countdownEl d).

Definition set_chat_open (o : bool) (d : Dom) : Dom :=
  mkDom (inputs d) (texts d) (toast_text d) (toast_show d) (choiceModal d)
    (enterpriseModal d) (carrierModal d) (body_overflow d) (enterprise_ui d)
    (carrier_ui d) (email_form_display d) (email_success_show d) o (countdownEl d).

Definition set_countdownEl (t : option jsstring) (d : Dom) : Dom :=
  mkDom (inputs d) (texts d) (toast_text d) (toast_show d) (choiceModal d)
    (enterpriseModal d) (carrierModal d) (body_overflow d) (enterprise_ui d)
    (carrier_ui d) (email_form_display d) (email_success_show d) (chat_open d) t.

(** ** The session state: the object [state] of the script *)

Inductive Variant : Type := VariantA | VariantB.

#[global] Instance Variant_eq_dec : EqDecision Variant.
Proof. solve_decision. Defined.

Definition variant_name (v : Variant) : jsstring :=
  match v with
  | VariantA => js "A"
  | VariantB => js "B"
  end.

(** The values that the script stores in events. [VDate t] stands for
    [new Date(t).toISOString()]; [VUndefined] for a [dataset] entry that
    the element does not have. *)
Inductive Value : Type :=
| VStr (s : jsstring)
| VNum (z : Z)
| VDate (t : Z)
| VUndefined.

#[global] Instance Value_eq_dec : EqDecision Value.
Proof. solve_decision. Defined.

Record Lead : Type := mkLead {
  lead_type : jsstring;
  lead_timestamp : Value;
  lead_data : gmap string jsstring
}.

Record State : Type := mkState {
  sessionId : jsstring;
  variant : Variant;
  startTime : Z;
  events : list (gmap string Value);
  leads : list Lead;
  scrollDepths : gset Z;
  timeMilestones : gset Z
}.

Definition set_events (e : list (gmap string Value)) (s : State) : State :=
  mkState (sessionId s) (variant s) (startTime s) e (leads s) (scrollDepths s)
    (timeMilestones s).

Definition set_leads (l : list Lead) (s : State) : State :=
  mkState (sessionId s) (variant s) (startTime s) (events s) l (scrollDepths s)
    (timeMilestones s).

Definition set_scrollDepths (d : gset Z) (s : State) : State :=
  mkState (sessionId s) (variant s) (startTime s) (events s) (leads s) d
    (timeMilestones s).

Definition set_timeMilestones (t : gset Z) (s : State) : State :=
  mkState (sessionId s) (variant s) (startTime s) (events s) (leads s)
    (scrollDepths s) t.

(** ** The world a handler runs in

    [clock] gives the instants (milliseconds) that the system clock returns
    to successive reads and [reads] counts the reads made so far, so that
    [Date.now()] and [new Date()] are [clock reads]. [timers] holds the
    callbacks that were scheduled and have not run yet: the continuation of
    an [await] on a delay, and the [setTimeout] callbacks. [endTime] is the
    constant of the countdown's closure. *)
Inductive Task : Type :=
| EnterpriseComplete (formData : gmap string jsstring)
| EnterpriseReset
| CarrierComplete (formData : gmap string jsstring)
| CarrierReset
| EmailReset (emailInput : nat)
| ToastHide.

Record World : Type := mkWorld {
  st : State;
  dom : Dom;
  timers : list Task;
  clock : nat -> Z;
  reads : nat;
  endTime : Z
}.

Definition set_st (s : State) (w : World) : World :=
  mkWorld s (dom w) (timers w) (clock w) (reads w) (endTime w).

Definition set_dom (d : Dom) (w : World) : World :=
  mkWorld (st w) d (timers w) (clock w) (reads w) (endTime w).

Definition setTimeout (t : Task) (w : World) : World :=
  mkWorld (st w) (dom w) (timers w ++ [t]) (clock w) (reads w) (endTime w).

Definition set_timers (l : list Task) (w : World) : World :=
  mkWorld (st w) (dom w) l (clock w) (reads w) (endTime w).

Definition set_endTime (t : Z) (w : World) : World :=
  mkWorld (st w) (dom w) (timers w) (clock w) (reads w) t.

(** [Date.now()] *)
Definition now (w : World) : Z * World :=
  (clock w (reads w), mkWorld (st w) (dom w) (timers w) (clock w) (S (reads w)) (endTime w)).

(** ** Analytics tracking *)

(** [{ ...base, ...data }]: the entries of [data] win. *)
Definition spread (base data : gmap string Value) : gmap string Value := data ∪ base.

(** The object literal that [trackEvent] builds, at instant [t]. *)
Definition event_record (eventName : jsstring) (data : gmap string Value) (s : State)
    (t : Z) : gmap string Value :=
  spread
    (<["sessionId" := VStr (sessionId s)]>
       (<["variant" := VStr (variant_name (variant s))]>
          (<["timestamp" := VDate t]>
             (<["event" := VStr eventName]> ∅))))
    data.

Definition trackEvent (eventName : jsstring) (data : gmap string Value) (w : World) : World :=
  let '(t, w) := now w in
  let event := event_record eventName data (st w) t in
  set_st (set_events (events (st w) ++ [event]) (st w)) w.

(** [state.leads.push(lead)] *)
Definition saveLead (lead : Lead) (w : World) : World :=
  set_st (set_leads (leads (st w) ++ [lead]) (st w)) w.

(** The scroll-depth listener; [scrollPercent] is what the listener
    computes from the scroll position and the heights of the page. *)
Definition scroll_milestone (scrollPercent : jsnum) (w : World) (milestone : Z) : World :=
  if num_ge scrollPercent milestone && negb (bool_decide (milestone ∈ scrollDepths (st w)))
  then
    trackEvent (js "scroll_depth") {["depth" := VNum milestone]}
      (set_st (set_scrollDepths ({[milestone]} ∪ scrollDepths (st w)) (st w)) w)
  else w.

Definition on_scroll (scrollPercent : jsnum) (w : World) : World :=
  foldl (scroll_milestone scrollPercent) w [25; 50; 75; 100].

(** The one-second interval of time on page. *)
Definition time_milestone (timeOnPage : Z) (w : World) (milestone : Z) : World :=
  if (milestone <=? timeOnPage) && negb (bool_decide (milestone ∈ timeMilestones (st w)))
  then
    trackEvent (js "time_on_page") {["seconds" := VNum milestone]}
      (set_st (set_timeMilestones ({[milestone]} ∪ timeMilestones (st w)) (st w)) w)
  else w.

Definition on_interval (w : World) : World :=
  let '(t, w) := now w in
  let timeOnPage := (t - startTime (st w)) / 1000 in
  foldl (time_milestone timeOnPage) w [30; 60; 120].

(** ** Modal management

    The focus that [openModal] gives the first control of the modal is not
    part of the model. *)

Definition openModal (modalName : Modal) (w : World) : World :=
  match modal_el modalName (dom w) with
  | Some _ =>
      let w := set_dom (set_modal_active modalName true (dom w)) w in
      let w := set_dom (set_body_overflow (js "hidden") (dom w)) w in
      trackEvent (js "modal_opened") {["modal" := VStr (modal_name modalName)]} w
  | None => w
  end.

Definition closeModal (modalName : Modal) (w : World) : World :=
  match modal_el modalName (dom w) with
  | Some _ =>
      let w := set_dom (set_modal_active modalName false (dom w)) w in
      let w := set_dom (set_body_overflow [] (dom w)) w in
      trackEvent (js "modal_closed") {["modal" := VStr (modal_name modalName)]} w
  | None => w
  end.

(** [Object.keys(modals)] *)
Definition modal_keys : list Modal := [choice; enterprise; carrier].

Definition on_keydown (key : jsstring) (w : World) : World :=
  if jsstring_eqb key (js "Escape")
  then foldl (fun w k => closeModal k w) w modal_keys
  else w.

(** ** Form validation *)

Definition is_empty (s : jsstring) : bool :=
  match s with
  | [] => true
  | _ :: _ => false
  end.

Definition formatPhoneNumber (value : jsstring) : jsstring :=
  let cleaned := strip_non_digits value in
  if (length cleaned <=? 3)%nat then cleaned
  else if (length cleaned <=? 6)%nat
  then js "(" ++ take 3 cleaned ++ js ") " ++ drop 3 cleaned
  else js "(" ++ take 3 cleaned ++ js ") " ++ take 3 (drop 3 cleaned) ++ js "-"
       ++ take 4 (drop 6 cleaned).

(** The first half of [validateField]: the chain of rules, giving
    [(isValid, errorMsg)]. *)
Definition validity (input : Input) : bool * jsstring :=
  let value := trim (in_value input) in
  let type := in_type input in
  let id := in_id input in
  if in_required input && is_empty value
  then (false, js "This field is required")
  else if jsstring_eqb type (js "email") && negb (is_empty value)
          && negb (test emailRegex value)
  then (false, js "Please enter a valid email")
  else
    match in_minlength input with
    | Some attr =>
        let minLength := parseInt attr in
        if int_lt_num (Z.of_nat (length value)) minLength
        then (false, js "Minimum " ++ num_to_string minLength ++ js " characters required")
        else (true, [])
    | None =>
        if includes (js "Name") id && negb (is_empty value) && negb (test nameRegex value)
        then (false, js "Please enter a valid name (letters only)")
        else if includes (js "DOT") id && negb (is_empty value)
                && negb (test digitsRegex value)
        then (false, js "DOT number must be numeric")
        else (true, [])
    end.

(** The classes [valid] and [invalid] that [validateField] gives the input. *)
Definition mark (isValid : bool) (input : Input) : Input :=
  let value := trim (in_value input) in
  if isValid && negb (is_empty value) then set_marks true false input
  else if negb isValid then set_marks false true input
  else set_marks false false input.

(** The second half of [validateField]: the message goes to the element
    [`${id}Error`] when there is one, and the classes of the input follow
    the verdict. *)
Definition update_ui (i : nat) (input : Input) (isValid : bool) (errorMsg : jsstring)
    (d : Dom) : Dom :=
  let key := in_id input ++ js "Error" in
  let d :=
    match texts d !! key with
    | Some _ => set_texts (<[key := errorMsg]> (texts d)) d
    | None => d
    end in
  set_inputs (<[i := mark isValid input]> (inputs d)) d.

(** [validateField(input)], for the element [input] that stands at
    position [i] of the document. *)
Definition validateField (i : nat) (input : Input) (d : Dom) : bool * Dom :=
  let '(isValid, errorMsg) := validity input in
  (isValid, update_ui i input isValid errorMsg d).

(** [form.querySelectorAll('.form-input[required]')], in document order. *)
Definition is_required_input (f : Form) (x : Input) : bool :=
  bool_decide (in_form x = Some f) && in_form_input x && in_required x.

Definition required_inputs (f : Form) (d : Dom) : list (nat * Input) :=
  filter (fun p => is_required_input f p.2 = true) (imap pair (inputs d)).

(** The loop that validates every required field of a form. *)
Definition validate_step (acc : bool * Dom) (p : nat * Input) : bool * Dom :=
  let '(allValid, d) := acc in
  let '(ok, d) := validateField p.1 p.2 d in
  (if negb ok then false else allValid, d).

Definition validate_all (f : Form) (d : Dom) : bool * Dom :=
  foldl validate_step (true, d) (required_inputs f d).

(** [document.getElementById(id)] among the inputs: the first one in
    document order. *)
Definition find_input (id : jsstring) (d : Dom) : option (nat * Input) :=
  list_find (fun x => in_id x = id) (inputs d).

Definition value_of (id : string) (d : Dom) : option jsstring :=
  (fun p => in_value p.2) <$> find_input (js id) d.

(** ** Toast notifications *)

Definition showToast (message : jsstring) (w : World) : World :=
  setTimeout ToastHide (set_dom (set_toast message true (dom w)) w).

(** ** Enterprise and carrier form submission

    The two submit handlers have one shape; what differs is listed here. *)

Definition formData (f : Form) (d : Dom) : option (gmap string jsstring) :=
  match f with
  | EnterpriseForm =>
      name ← value_of "entName" d;
      email ← value_of "entEmail" d;
      company ← value_of "entCompany" d;
      phone ← value_of "entPhone" d;
      fleetSize ← value_of "entFleetSize" d;
      message ← value_of "entMessage" d;
      Some (<["message" := message]> (<["fleetSize" := fleetSize]> (<["phone" := phone]>
             (<["company" := company]> (<["email" := email]> (<["name" := name]> ∅))))))
  | CarrierForm =>
      name ← value_of "carName" d;
      email ← value_of "carEmail" d;
      company ← value_of "carCompany" d;
      phone ← value_of "carPhone" d;
      fleetType ← value_of "carFleetType" d;
      vehicleCount ← value_of "carVehicleCount" d;
      dot ← value_of "carDOT" d;
      insurance ← value_of "carInsurance" d;
      message ← value_of "carMessage" d;
      Some (<["message" := message]> (<["insurance" := insurance]> (<["dot" := dot]>
             (<["vehicleCount" := vehicleCount]> (<["fleetType" := fleetType]>
             (<["phone" := phone]> (<["company" := company]> (<["email" := email]>
             (<["name" := name]> ∅)))))))))
  end.

Definition form_lead_type (f : Form) : jsstring :=
  match f with
  | EnterpriseForm => js "enterprise"
  | CarrierForm => js "carrier"
  end.

Definition form_modal (f : Form) : Modal :=
  match f with
  | EnterpriseForm => enterprise
  | CarrierForm => carrier
  end.

(** The second argument of [trackEvent('form_submitted', ...)]. *)
Definition form_event_data (f : Form) (s : State) : gmap string Value :=
  match f with
  | EnterpriseForm =>
      <["variant" := VStr (variant_name (variant s))]>
        (<["formType" := VStr (js "enterprise")]> ∅)
  | CarrierForm => <["formType" := VStr (js "carrier")]> ∅
  end.

Definition complete_task (f : Form) (data : gmap string jsstring) : Task :=
  match f with
  | EnterpriseForm => EnterpriseComplete data
  | CarrierForm => CarrierComplete data
  end.

Definition reset_task (f : Form) : Task :=
  match f with
  | EnterpriseForm => EnterpriseReset
  | CarrierForm => CarrierReset
  end.

(** The submit handler up to its [await]: the validation, the loading
    state, the collection of the field values. A field that
    [getElementById] does not find makes the handler throw there. *)
Definition on_submit (f : Form) (w : World) : World :=
  let '(allValid, d) := validate_all f (dom w) in
  let w := set_dom d w in
  if negb allValid
  then showToast (js "Please fill in all required fields correctly") w
  else
    let ui := form_ui f (dom w) in
    let w := set_dom (set_form_ui f (mkFormUi true true (form_submitted ui) (success_show ui))
                        (dom w)) w in
    match formData f (dom w) with
    | Some data => setTimeout (complete_task f data) w
    | None => w
    end.

(** The handler after the simulated processing delay. *)
Definition submit_complete (f : Form) (data : gmap string jsstring) (w : World) : World :=
  let '(t, w) := now w in
  let lead := mkLead (form_lead_type f) (VDate t) data in
  let w := saveLead lead w in
  let w := trackEvent (js "form_submitted") (form_event_data f (st w)) w in
  let ui := form_ui f (dom w) in
  let w := set_dom (set_form_ui f (mkFormUi (submit_loading ui) (submit_disabled ui) true true)
                      (dom w)) w in
  setTimeout (reset_task f) w.

(** [form.reset()] and the removal of the marks from every [.form-input]. *)
Definition reset_fields (f : Form) (l : list Input) : list Input :=
  (fun x => if bool_decide (in_form x = Some f) then set_value (in_default x) x else x) <$> l.

Definition clear_marks (l : list Input) : list Input :=
  (fun x => if in_form_input x then set_marks false false x else x) <$> l.

(** The callback that closes the modal three seconds after the success. *)
Definition submit_reset (f : Form) (w : World) : World :=
  let w := closeModal (form_modal f) w in
  let ui := form_ui f (dom w) in
  let w := set_dom (set_form_ui f (mkFormUi (submit_loading ui) (submit_disabled ui) false false)
                      (dom w)) w in
  let w := set_dom (set_inputs (reset_fields f (inputs (dom w))) (dom w)) w in
  let ui := form_ui f (dom w) in
  let w := set_dom (set_form_ui f (mkFormUi false false (form_submitted ui) (success_show ui))
                      (dom w)) w in
  set_dom (set_inputs (clear_marks (inputs (dom w))) (dom w)) w.

(** ** Email capture form *)

Definition on_submit_email (w : World) : World :=
  match find_input (js "quickEmail") (dom w) with
  | None => w
  | Some (i, emailInput) =>
      let email := trim (in_value emailInput) in
      if negb (test emailRegex email)
      then showToast (js "Please enter a valid email") w
      else
        let '(t, w) := now w in
        let lead := mkLead (js "email") (VDate t) {["email" := email]} in
        let w := saveLead lead w in
        let w := trackEvent (js "email_captured") {["email" := VStr email]} w in
        let w := set_dom (set_email_ui (js "none") true (dom w)) w in
        setTimeout (EmailReset i) w
  end.

Definition email_reset (emailInput : nat) (w : World) : World :=
  let w := set_dom (set_email_ui (js "flex") false (dom w)) w in
  match inputs (dom w) !! emailInput with
  | Some x => set_dom (set_inputs (<[emailInput := set_value [] x]> (inputs (dom w))) (dom w)) w
  | None => w
  end.

(** ** Listeners of the fields *)

(** The [blur] listener of a [.form-input]. *)
Definition on_blur (i : nat) (w : World) : World :=
  match inputs (dom w) !! i with
  | Some x => if in_form_input x then set_dom (validateField i x (dom w)).2 w else w
  | None => w
  end.

(** The user edits field [i], which makes its value [v]; then the [input]
    listeners run in the order of their registration: the phone formatter
    of a [.phone-input], and the revalidation of a [.form-input] that is
    marked invalid. *)
Definition on_input (i : nat) (v : jsstring) (w : World) : World :=
  match inputs (dom w) !! i with
  | Some x =>
      let x := set_value v x in
      let x := if in_phone_input x then set_value (formatPhoneNumber (in_value x)) x else x in
      let d := set_inputs (<[i := x]> (inputs (dom w))) (dom w) in
      if in_form_input x && in_invalid x
      then set_dom (validateField i x d).2 w
      else set_dom d w
  | None => w
  end.

(** ** Countdown timer *)

(** The text for [diff = endTime - Date.now()]. On a non-negative integer
    the floor of a quotient taken modulo [n] is the integer quotient modulo
    [n]. *)
Definition countdown_text (diff : Z) : jsstring :=
  if diff <=? 0 then js "Expired"
  else
    let d := diff / (1000 * 60 * 60 * 24) in
    let h := (diff / (1000 * 60 * 60)) mod 24 in
    let m := (diff / (1000 * 60)) mod 60 in
    let s := (diff / 1000) mod 60 in
    int_to_string d ++ js "d " ++ int_to_string h ++ js "h " ++ int_to_string m ++ js "m "
    ++ int_to_string s ++ js "s".

Definition updateCountdown (w : World) : World :=
  match countdownEl (dom w) with
  | Some _ =>
      let '(t, w) := now w in
      let diff := endTime w - t in
      set_dom (set_countdownEl (Some (countdown_text diff)) (dom w)) w
  | None => w
  end.

(** ** Timers *)

Definition run_task (t : Task) (w : World) : World :=
  match t with
  | EnterpriseComplete data => submit_complete EnterpriseForm data w
  | EnterpriseReset => submit_reset EnterpriseForm w
  | CarrierComplete data => submit_complete CarrierForm data w
  | CarrierReset => submit_reset CarrierForm w
  | EmailReset i => email_reset i w
  | ToastHide => set_dom (set_toast (toast_text (dom w)) false (dom w)) w
  end.

(** The [k]-th pending callback runs and leaves the list. *)
Definition fire (k : nat) (w : World) : World :=
  match timers w !! k with
  | Some t => run_task t (set_timers (delete k (timers w)) w)
  | None => w
  end.

(** ** The listeners of the page

    One constructor per listener that touches the session state or the
    parts of the document above. The carousels, the counters, the tabs, the
    accordion and the chat log only move their own elements; of them the
    model keeps the events they track. *)
Inductive Action : Type :=
| VideoLoaded
| VideoError (etype : jsstring)
| Scroll (scrollPercent : jsnum)
| Interval
| NavClick (targetId : jsstring) (targetFound : bool)
| BackdropClick (m : Modal)
| CloseClick (m : Modal)
| KeyDown (key : jsstring)
| HeaderSignupClick
| EnterpriseCtaClick
| CarrierCtaClick
| ChoiceEnterpriseClick
| ChoiceCarrierClick
| FabClick
| Blur (i : nat)
| InputEdit (i : nat) (v : jsstring)
| Submit (f : Form)
| SubmitEmail
| TimerFires (k : nat)
| BannerClose
| ActivityClose
| ScreenshotTabClick (tab : option jsstring)
| FaqClick (question : jsstring)
| ChatBubbleClick
| ChatCloseClick
| ChatQuickClick (isChatAction : bool) (action : option jsstring)
| ChatSubmit (message : jsstring)
| FinalEnterpriseClick
| FinalCarrierClick
| CountdownTick.

Definition dataset_value (v : option jsstring) : Value :=
  match v with
  | Some s => VStr s
  | None => VUndefined
  end.

Definition cta_clicked (button : string) (w : World) : World :=
  trackEvent (js "cta_clicked") {["button" := VStr (js button)]} w.

Definition step (a : Action) (w : World) : World :=
  match a with
  | VideoLoaded => trackEvent (js "video_loaded") ∅ w
  | VideoError etype => trackEvent (js "video_error") {["error" := VStr etype]} w
  | Scroll scrollPercent => on_scroll scrollPercent w
  | Interval => on_interval w
  | NavClick targetId targetFound =>
      if targetFound then trackEvent (js "nav_click") {["target" := VStr targetId]} w else w
  | BackdropClick m => closeModal m w
  | CloseClick m => closeModal m w
  | KeyDown key => on_keydown key w
  | HeaderSignupClick => openModal choice (cta_clicked "header_signup" w)
  | EnterpriseCtaClick =>
      openModal enterprise
        (trackEvent (js "cta_clicked")
           (<["variant" := VStr (variant_name (variant (st w)))]>
              (<["button" := VStr (js "enterprise_hero")]> ∅)) w)
  | CarrierCtaClick => openModal carrier (cta_clicked "carrier_hero" w)
  | ChoiceEnterpriseClick => openModal enterprise (closeModal choice w)
  | ChoiceCarrierClick => openModal carrier (closeModal choice w)
  | FabClick => openModal choice (cta_clicked "fab" w)
  | Blur i => on_blur i w
  | InputEdit i v => on_input i v w
  | Submit f => on_submit f w
  | SubmitEmail => on_submit_email w
  | TimerFires k => fire k w
  | BannerClose => trackEvent (js "banner_dismissed") ∅ w
  | ActivityClose => trackEvent (js "activity_feed_dismissed") ∅ w
  | ScreenshotTabClick tab =>
      trackEvent (js "screenshot_tab_clicked") {["tab" := dataset_value tab]} w
  | FaqClick question => trackEvent (js "faq_opened") {["question" := VStr (trim question)]} w
  | ChatBubbleClick =>
      let w := set_dom (set_chat_open (negb (chat_open (dom w))) (dom w)) w in
      if chat_open (dom w) then trackEvent (js "chat_opened") ∅ w else w
  | ChatCloseClick => set_dom (set_chat_open false (dom w)) w
  | ChatQuickClick isChatAction action =>
      if isChatAction
      then trackEvent (js "chat_quick_action") {["action" := dataset_value action]} w
      else w
  | ChatSubmit message =>
      if is_empty (trim message) then w else trackEvent (js "chat_message_sent") ∅ w
  | FinalEnterpriseClick => cta_clicked "final_enterprise" (openModal enterprise w)
  | FinalCarrierClick => cta_clicked "final_carrier" (openModal carrier w)
  | CountdownTick => updateCountdown w
  end.

Definition run (l : list Action) (w : World) : World := foldl (fun w a => step a w) w l.

(** ** Page load *)

Definition Qlt_bool (a b : Q) : bool := negb (Qle_bool b a).

(** [Math.random() < 0.5 ? 'A' : 'B'] *)
Definition variant_of_draw (r : Q) : Variant :=
  if Qlt_bool r (1 # 2) then VariantA else VariantB.

(** ['session_' + Date.now() + '_' + Math.random().toString(36).substr(2, 9)];
    [suffix] is the base-36 text of the second random draw. *)
Definition generateSessionId (suffix : jsstring) (t : Z) : jsstring :=
  js "session_" ++ int_to_string t ++ js "_" ++ suffix.

(** The top level of the script: the state object, the page view, the
    first rendering of the countdown. [draw] is the value of
    [Math.random()] that chooses the variant. *)
Definition init (suffix : jsstring) (draw : Q) (clk : nat -> Z) (d : Dom) : World :=
  let s := mkState (generateSessionId suffix (clk 0%nat)) (variant_of_draw draw)
             (clk 1%nat) [] [] ∅ ∅ in
  let w := mkWorld s d [] clk 2 0 in
  let w := trackEvent (js "page_view") ∅ w in
  match countdownEl (dom w) with
  | Some _ =>
      let '(t, w) := now w in
      let w := set_endTime (t + 6 * 24 * 60 * 60 * 1000 + 23 * 60 * 60 * 1000
                            + 45 * 60 * 1000 + 12 * 1000) w in
      updateCountdown w
  | None => w
  end.

(** ** Vocabulary of the properties *)

Definition event_named (name : jsstring) (e : gmap string Value) : bool :=
  bool_decide (e !! "event" = Some (VStr name)).

Definition is_scroll_depth (m : Z) (e : gmap string Value) : bool :=
  event_named (js "scroll_depth") e && bool_decide (e !! "depth" = Some (VNum m)).

Definition is_time_on_page (m : Z) (e : gmap string Value) : bool :=
  event_named (js "time_on_page") e && bool_decide (e !! "seconds" = Some (VNum m)).

Fixpoint count_events (p : gmap string Value -> bool) (l : list (gmap string Value)) : nat :=
  match l with
  | [] => 0
  | e :: l' => (if p e then 1 else 0) + count_events p l'
  end.

(** The names the two milestone trackers use. *)
Definition milestone_name (name : jsstring) : bool :=
  jsstring_eqb name (js "scroll_depth") || jsstring_eqb name (js "time_on_page").

(** Every milestone that is in a set has exactly one event, and a milestone
    that is in no set has none. *)
Definition milestones_inv (s : State) : Prop :=
  forall m,
    count_events (is_scroll_depth m) (events s)
      = (if bool_decide (m ∈ scrollDepths s) then 1 else 0)%nat /\
    count_events (is_time_on_page m) (events s)
      = (if bool_decide (m ∈ timeMilestones s) then 1 else 0)%nat.

(** The session identity of a world. *)
Definition session_of (s : State) : jsstring * Variant * Z :=
  (sessionId s, variant s, startTime s).

(** [s] comes from [s0] by appending events and leads and by adding
    milestones, with the same session identity. *)
Definition grown_from (s0 s : State) : Prop :=
  session_of s = session_of s0 /\
  (exists es, events s = events s0 ++ es) /\
  (exists ls, leads s = leads s0 ++ ls) /\
  scrollDepths s0 ⊆ scrollDepths s /\
  timeMilestones s0 ⊆ timeMilestones s.

(** The [2p] equally likely values [k / 2p] of a draw that is uniform on a
    grid of [[0, 1)], and those among them that give a variant. (The random
    source of an engine is such a grid, with [2p = 2^53].) *)
Definition grid_draw (p : positive) (k : nat) : Q := Z.of_nat k # (2 * p).

Definition draws_giving (v : Variant) (p : positive) : list nat :=
  filter (fun k => variant_of_draw (grid_draw p k) = v) (seq 0 (Pos.to_nat (2 * p))).

(** A field of the class [form-input], unmarked. *)
Definition field (form : option Form) (id type value : string) (required : bool)
    (minlength : option jsstring) : Input :=
  mkInput (js id) (js type) (js value) [] required minlength form true false false false.

(** ** The validator as the specification words it

    The five rules in their priority order; a rule fails on a field when it
    applies to the field and the trimmed value breaks it, and the first
    rule that fails gives the message. [validity] above is the chain of the
    script; [validate_spec] is this reading, to compare the two. *)
Inductive Rule : Type := RequiredRule | EmailRule | MinLengthRule | NameRule | NumericRule.

Definition rule_order : list Rule :=
  [RequiredRule; EmailRule; MinLengthRule; NameRule; NumericRule].

Definition rule_failure (input : Input) (r : Rule) : option jsstring :=
  let value := trim (in_value input) in
  match r with
  | RequiredRule =>
      if in_required input && is_empty value then Some (js "This field is required")
      else None
  | EmailRule =>
      if jsstring_eqb (in_type input) (js "email") && negb (is_empty value)
         && negb (test emailRegex value)
      then Some (js "Please enter a valid email")
      else None
  | MinLengthRule =>
      match in_minlength input with
      | Some attr =>
          if int_lt_num (Z.of_nat (length value)) (parseInt attr)
          then Some (js "Minimum " ++ num_to_string (parseInt attr) ++ js " characters required")
          else None
      | None => None
      end
  | NameRule =>
      if includes (js "Name") (in_id input) && negb (is_empty value)
         && negb (test nameRegex value)
      then Some (js "Please enter a valid name (letters only)")
      else None
  | NumericRule =>
      if includes (js "DOT") (in_id input) && negb (is_empty value)
         && negb (test digitsRegex value)
      then Some (js "DOT number must be numeric")
      else None
  end.

Fixpoint first_failure (input : Input) (rules : list Rule) : option jsstring :=
  match rules with
  | [] => None
  | r :: rules' =>
      match rule_failure input r with
      | Some msg => Some msg
      | None => first_failure input rules'
      end
  end.

Definition validate_spec (input : Input) : bool * jsstring :=
  match first_failure input rule_order with
  | Some msg => (false, msg)
  | None => (true, [])
  end.

(** A name field that also has a [minlength] attribute, holding [J0hn]. *)
Definition name_field_with_minlength : Input :=
  field (Some EnterpriseForm) "entName" "text" "J0hn" true (Some (js "2")).

(** The document apart from the fields and their error elements. *)
Definition rest_of_dom (d : Dom) :=
  (toast_text d, toast_show d, choiceModal d, enterpriseModal d, carrierModal d,
   body_overflow d, enterprise_ui d, carrier_ui d, email_form_display d,
   email_success_show d, chat_open d, countdownEl d).

(** The attributes of a field that the rules read. *)
Definition rule_attributes (x : Input) :=
  (in_id x, in_type x, in_required x, in_minlength x).

(** The reading of "no side effect" for [validateField]: the document
    after the call is the document before it. *)
Definition validateField_leaves_document : Prop :=
  forall i input d, inputs d !! i = Some input -> (validateField i input d).2 = d.

(** A field without its two marks: what validation never changes. *)
Definition unmark (x : Input) : Input := set_marks false false x.

(** The validation of a submit handler lets the submission through. *)
Definition all_valid (f : Form) (d : Dom) : Prop :=
  forall p, p ∈ required_inputs f d -> (validity p.2).1 = true.

(** The validation of a submit handler stops the submission. *)
Definition validation_fails (a : Action) (w : World) : Prop :=
  match a with
  | Submit f => exists p, p ∈ required_inputs f (dom w) /\ (validity p.2).1 = false
  | SubmitEmail =>
      exists i x, find_input (js "quickEmail") (dom w) = Some (i, x) /\
                  test emailRegex (trim (in_value x)) = false
  | _ => False
  end.

(** The reading of "surfaced only as inline messages and markers": a
    stopped submission changes nothing but the fields and their error
    elements. *)
Definition failure_is_inline_only : Prop :=
  forall a w, validation_fails a w ->
    st (step a w) = st w /\ rest_of_dom (dom (step a w)) = rest_of_dom (dom w).

(** A modal that is in the page and is closed. *)
Definition is_closed (m : Modal) (w : World) : Prop := modal_el m (dom w) = Some false.

(** The reading of "no other state effect" for closing a closed modal: the
    world after the call is the world before it, but for the appended
    event and the clock read that stamps it. *)
Definition close_is_noop_but_event : Prop :=
  forall m w, is_closed m w ->
    exists e,
      closeModal m w
      = mkWorld (set_events (events (st w) ++ [e]) (st w)) (dom w) (timers w) (clock w)
          (S (reads w)) (endTime w).

(** ** A sample page

    A page with the fields that the handlers look up by id, used where a
    property is exercised on concrete input. *)
Definition sample_inputs (name email dot quick : string) : list Input :=
  [ field (Some EnterpriseForm) "entName" "text" name true None;
    field (Some EnterpriseForm) "entEmail" "email" email true None;
    field (Some EnterpriseForm) "entCompany" "text" "Acme Freight" true None;
    field (Some EnterpriseForm) "entPhone" "tel" "(555) 010-2030" false None;
    field (Some EnterpriseForm) "entFleetSize" "select-one" "11-50" false None;
    field (Some EnterpriseForm) "entMessage" "textarea" "" false None;
    field (Some CarrierForm) "carName" "text" name true None;
    field (Some CarrierForm) "carEmail" "email" email true None;
    field (Some CarrierForm) "carCompany" "text" "Acme Freight" true None;
    field (Some CarrierForm) "carPhone" "tel" "(555) 010-2030" false None;
    field (Some CarrierForm) "carFleetType" "select-one" "flatbed" false None;
    field (Some CarrierForm) "carVehicleCount" "number" "12" false None;
    field (Some CarrierForm) "carDOT" "text" dot true None;
    field (Some CarrierForm) "carInsurance" "text" "yes" false None;
    field (Some CarrierForm) "carMessage" "textarea" "" false None;
    field None "quickEmail" "email" quick false None ].

Definition sample_texts : gmap jsstring jsstring :=
  <[js "entNameError" := []]> (<[js "entEmailError" := []]> (<[js "carDOTError" := []]> ∅)).

Definition idle_ui : FormUi := mkFormUi false false false false.

Definition sample_dom (name email dot quick : string) : Dom :=
  mkDom (sample_inputs name email dot quick) sample_texts [] false
    (Some false) (Some false) (Some false) [] idle_ui idle_ui (js "flex") false false
    (Some []).

(** The sample page right after its load, for a clock that advances by one
    second per read from instant [1000000]. *)
Definition sample_world (name email dot quick : string) : World :=
  init (js "k3v9x2m1q") (1 # 4) (fun n => 1000000 + 1000 * Z.of_nat n)
    (sample_dom name email dot quick).

(** The values that the enterprise form of the sample page submits. *)
Definition sample_enterprise_data (name email : string) : gmap string jsstring :=
  <["message" := []]> (<["fleetSize" := js "11-50"]> (<["phone" := js "(555) 010-2030"]>
    (<["company" := js "Acme Freight"]> (<["email" := js email]> (<["name" := js name]> ∅))))).

(** The sample page under a clock that stands at [0] during the load, is
    one second short of the target of the countdown at the next read, and
    at the target from then on. *)
Definition countdown_world : World :=
  init (js "k3v9x2m1q") (1 # 4)
    (fun n => if (n <? 5)%nat then 0 else if (n =? 5)%nat then 603911000 else 603912000)
    (sample_dom "Ann" "a@b.co" "1234567890" "a@b.co").

(** ** Widgets with an index

    The testimonial carousel and the activity feed keep an index that a
    timer and two buttons move; [%] of the script is the remainder that
    truncates, [Z.rem]. *)

(** The interval and the next button of the carousel, for [n] cards. *)
Definition nextTestimonial (n testimonialIndex : Z) : Z :=
  Z.rem (testimonialIndex + 1) n.

(** The previous button of the carousel. *)
Definition prevTestimonial (n testimonialIndex : Z) : Z :=
  Z.rem (testimonialIndex - 1 + n) n.

(** [showTestimonial(i)]: the class [active] of each of the [n] cards. *)
Definition showTestimonial (n : nat) (i : Z) : list bool :=
  (fun idx => bool_decide (Z.of_nat idx = i)) <$> seq 0 n.

(** The three listeners that move the carousel; they are registered when
    the page has cards. *)
Inductive CarouselAction : Type := CarouselTick | CarouselPrev | CarouselNext.

Definition carousel_step (n : Z) (testimonialIndex : Z) (a : CarouselAction) : Z :=
  match a with
  | CarouselTick => nextTestimonial n testimonialIndex
  | CarouselPrev => prevTestimonial n testimonialIndex
  | CarouselNext => nextTestimonial n testimonialIndex
  end.

(** The index after a sequence of ticks and clicks, from [0] at load. *)
Definition carousel_run (n : Z) (l : list CarouselAction) : Z :=
  foldl (carousel_step n) 0 l.

Definition feedItems : list jsstring :=
  [ js "John from ABC Freight just signed up";
    js "Lisa from Metro Charter just signed up";
    js "Carlos from Summit Carriers just signed up";
    js "Jenny from Global Freight Co. just signed up";
    js "Alex from National Fleet Services just signed up";
    js "Tom from Premier Logistics Group just signed up" ].

(** [rotateFeed]: the text it shows ([None] for [undefined]) and the next
    index. *)
Definition rotateFeed (feedIdx : Z) : option jsstring * Z :=
  (if feedIdx <? 0 then None else feedItems !! Z.to_nat feedIdx,
   Z.rem (feedIdx + 1) (Z.of_nat (length feedItems))).

(** The index and the text after the first call at load and [k] ticks of
    the interval. *)
Fixpoint feed_after (k : nat) : option jsstring * Z :=
  match k with
  | O => rotateFeed 0
  | S k' => rotateFeed (feed_after k').2
  end.

(** ** More vocabulary of the properties *)

(** The names of the events that go with a lead. *)
Definition lead_event_name (name : jsstring) : bool :=
  jsstring_eqb name (js "form_submitted") || jsstring_eqb name (js "email_captured").

(** Extra fields that leave the session context of an event as it is. *)
Definition safe_data (s : State) (data : gmap string Value) : Prop :=
  data !! "event" = None /\ data !! "timestamp" = None /\ data !! "sessionId" = None /\
  (data !! "variant" = None \/ data !! "variant" = Some (VStr (variant_name (variant s)))).

(** An event that carries the identity of the session [s], an instant and
    a name. *)
Definition tagged (s : State) (e : gmap string Value) : Prop :=
  e !! "sessionId" = Some (VStr (sessionId s)) /\
  e !! "variant" = Some (VStr (variant_name (variant s))) /\
  (exists t, e !! "timestamp" = Some (VDate t)) /\
  (exists name, e !! "event" = Some (VStr name)).

Definition lead_types : list jsstring := [js "enterprise"; js "carrier"; js "email"].

Definition scroll_milestones : list Z := [25; 50; 75; 100].
Definition time_milestones : list Z := [30; 60; 120].

(** What the log of a session looks like: every event is tagged, every
    lead has one of the three types and an instant, there are as many
    leads as lead events, as many milestone events as milestones in the
    sets, and the sets hold listed milestones only. *)
Definition log_inv (s : State) : Prop :=
  Forall (tagged s) (events s) /\
  Forall (fun l => lead_type l ∈ lead_types /\ exists t, lead_timestamp l = VDate t) (leads s) /\
  length (leads s)
  = (count_events (event_named (js "form_submitted")) (events s)
     + count_events (event_named (js "email_captured")) (events s))%nat /\
  count_events (event_named (js "scroll_depth")) (events s) = size (scrollDepths s) /\
  count_events (event_named (js "time_on_page")) (events s) = size (timeMilestones s) /\
  (forall m, m ∈ scrollDepths s -> m ∈ scroll_milestones) /\
  (forall m, m ∈ timeMilestones s -> m ∈ time_milestones).

(** The four numbers of the countdown for [diff] milliseconds. *)
Definition countdown_parts (diff : Z) : Z * Z * Z * Z :=
  (diff / (1000 * 60 * 60 * 24),
   (diff / (1000 * 60 * 60)) mod 24,
   (diff / (1000 * 60)) mod 60,
   (diff / 1000) mod 60).

(** [formatPhoneNumber] on a string that holds digits only. *)
Definition format_digits (cleaned : jsstring) : jsstring :=
  if (length cleaned <=? 3)%nat then cleaned
  else if (length cleaned <=? 6)%nat
  then js "(" ++ take 3 cleaned ++ js ") " ++ drop 3 cleaned
  else js "(" ++ take 3 cleaned ++ js ") " ++ take 3 (drop 3 cleaned) ++ js "-"
       ++ take 4 (drop 6 cleaned).

(** What [closeModal] does to the document. *)
Definition close_dom (m : Modal) (d : Dom) : Dom :=
  match modal_el m d with
  | Some _ => set_body_overflow [] (set_modal_active m false d)
  | None => d
  end.

(** What [openModal] does to the document. *)
Definition open_dom (m : Modal) (d : Dom) : Dom :=
  match modal_el m d with
  | Some _ => set_body_overflow (js "hidden") (set_modal_active m true d)
  | None => d
  end.

(** The buttons whose listeners track [cta_clicked], with the name they
    report and the modal they open. *)
Definition cta_buttons : list (Action * string * Modal) :=
  [ (HeaderSignupClick, "header_signup", choice);
    (EnterpriseCtaClick, "enterprise_hero", enterprise);
    (CarrierCtaClick, "carrier_hero", carrier);
    (FabClick, "fab", choice);
    (FinalEnterpriseClick, "final_enterprise", enterprise);
    (FinalCarrierClick, "final_carrier", carrier) ].

(** What a click on such a button leaves behind. *)
Definition cta_outcome (button : string) (m : Modal) (w w' : World) : Prop :=
  exists es,
    events (st w') = events (st w) ++ es /\
    length es = match modal_el m (dom w) with Some _ => 2%nat | None => 1%nat end /\
    (exists e, e ∈ es /\ e !! "event" = Some (VStr (js "cta_clicked")) /\
       e !! "button" = Some (VStr (js button))) /\
    (is_Some (modal_el m (dom w)) ->
     exists e, e ∈ es /\ e !! "event" = Some (VStr (js "modal_opened")) /\
       e !! "modal" = Some (VStr (modal_name m))) /\
    dom w' = open_dom m (dom w) /\
    leads (st w') = leads (st w).

(** * Properties *)

(** ** The matcher against the language of a pattern *)

Lemma nullable_lang r : nullable r = true <-> lang r [].
Proof.
  split.
  - induction r; simpl; intros H; try discriminate.
    + constructor.
    + apply andb_true_iff in H as [H1 H2].
      change (@nil N) with (@nil N ++ []). constructor; auto.
    + apply orb_true_iff in H as [H|H]; [apply L_alt_l | apply L_alt_r]; auto.
    + constructor.
  - intros H. remember [] as s eqn:Hs. induction H; simpl; try discriminate; auto.
    + apply app_eq_nil in Hs as [-> ->]. rewrite IHlang1, IHlang2; auto.
    + rewrite IHlang; auto.
    + rewrite IHlang; auto using orb_true_r.
Qed.

Lemma star_cons_inv r c s :
  lang (Star r) (c :: s) ->
  exists s1 s2, s = s1 ++ s2 /\ lang r (c :: s1) /\ lang (Star r) s2.
Proof.
  intros H. remember (Star r) as R eqn:HR. remember (c :: s) as cs eqn:Hcs.
  induction H; try discriminate.
  injection HR as ->. destruct s1 as [|c1 s1]; simpl in Hcs.
  - auto.
  - injection Hcs as -> <-. eauto.
Qed.

Lemma deriv_lang c r : forall s, lang (deriv c r) s <-> lang r (c :: s).
Proof.
  induction r; simpl; intros s.
  - split; inversion 1.
  - split; inversion 1.
  - destruct (p c) eqn:Hp; split; intros H; inversion H; subst.
    + by constructor.
    + constructor.
    + congruence.
  - assert (Hcat : lang (Cat (deriv c r1) r2) s -> lang (Cat r1 r2) (c :: s)).
    { intros H. inversion H; subst. change (c :: s1 ++ s2) with ((c :: s1) ++ s2).
      constructor; [by apply IHr1 | done]. }
    assert (Hinv : lang (Cat r1 r2) (c :: s) ->
                   lang (Cat (deriv c r1) r2) s \/ (lang r1 [] /\ lang (deriv c r2) s)).
    { intros H. inversion H as [| |? ? s1 s2 H1 H2 Ha Heq| | | |]; subst.
      destruct s1 as [|c1 s1]; simpl in Heq; subst.
      - right. split; [done | by apply IHr2].
      - injection Heq as -> <-. left. constructor; [by apply IHr1 | done]. }
    destruct (nullable r1) eqn:Hn.
    + split.
      * intros H. inversion H; subst; [by apply Hcat |].
        change (c :: s) with ([] ++ c :: s). constructor; [by apply nullable_lang | by apply IHr2].
      * intros H. destruct (Hinv H) as [H'|[_ H']]; [by apply L_alt_l | by apply L_alt_r].
    + split; [done |].
      intros H. destruct (Hinv H) as [H'|[H' _]]; [done |].
      apply nullable_lang in H'. congruence.
  - split; intros H; inversion H; subst.
    + apply L_alt_l. by apply IHr1.
    + apply L_alt_r. by apply IHr2.
    + apply L_alt_l. by apply IHr1.
    + apply L_alt_r. by apply IHr2.
  - split.
    + intros H. inversion H; subst. change (c :: s1 ++ s2) with ((c :: s1) ++ s2).
      constructor; [by apply IHr | done].
    + intros H. apply star_cons_inv in H as (s1 & s2 & -> & H1 & H2).
      constructor; [by apply IHr | done].
Qed.

(** [test] decides membership in the language of the pattern. *)
Lemma test_lang s : forall r, test r s = true <-> lang r s.
Proof.
  induction s as [|c s IH]; simpl; intros r.
  - apply nullable_lang.
  - rewrite IH. apply deriv_lang.
Qed.

(** What the two simple patterns accept. *)
Lemma lang_star_class p s : lang (Star (Class p)) s <-> forallb p s = true.
Proof.
  split.
  - intros H. remember (Star (Class p)) as R eqn:HR.
    induction H; try discriminate; [done |].
    injection HR as ->. inversion H as [|? c Hc| | | | |]; subst. simpl.
    rewrite Hc. by apply IHlang2.
  - induction s as [|c s IH]; simpl; intros H; [constructor |].
    apply andb_true_iff in H as [Hc Hs].
    change (c :: s) with ([c] ++ s). constructor; [by constructor | auto].
Qed.

Lemma test_digitsRegex s : test digitsRegex s = forallb is_digit s.
Proof.
  apply eq_true_iff_eq. rewrite test_lang. apply lang_star_class.
Qed.

Lemma test_nameRegex s :
  test nameRegex s = (2 <=? length s)%nat && forallb letter_or_space s.
Proof.
  apply eq_true_iff_eq. rewrite test_lang. unfold nameRegex. split.
  - intros H. inversion H as [| |? ? s1 s2 H1 H2| | | |]; subst.
    inversion H2 as [| |? ? s3 s4 H3 H4| | | |]; subst.
    inversion H1 as [|? a Ha| | | | |]; subst.
    inversion H3 as [|? b Hb| | | | |]; subst. apply lang_star_class in H4.
    simpl. by rewrite Ha, Hb, H4.
  - destruct s as [|a [|b s]]; simpl; try discriminate.
    intros H. apply andb_true_iff in H as [Ha H]. apply andb_true_iff in H as [Hb H].
    change (a :: b :: s) with ([a] ++ [b] ++ s).
    repeat constructor; try done. by apply lang_star_class.
Qed.

(** ** What every listener preserves

    A property of the session state that survives the four ways in which
    the script updates the state survives every listener. *)

Arguments js : simpl never.
Arguments event_record : simpl never.
Arguments validate_all : simpl never.
Arguments formData : simpl never.
Arguments find_input : simpl never.

Section Preservation.
Variable Q : State -> Prop.

Hypothesis Q_track : forall s name data t,
  milestone_name name = false -> data !! "event" = None -> Q s ->
  Q (set_events (events s ++ [event_record name data s t]) s).

Hypothesis Q_lead : forall s l, Q s -> Q (set_leads (leads s ++ [l]) s).

Hypothesis Q_scroll : forall s m t,
  m ∉ scrollDepths s -> Q s ->
  let s' := set_scrollDepths ({[m]} ∪ scrollDepths s) s in
  Q (set_events
       (events s' ++ [event_record (js "scroll_depth") {["depth" := VNum m]} s' t]) s').

Hypothesis Q_time : forall s m t,
  m ∉ timeMilestones s -> Q s ->
  let s' := set_timeMilestones ({[m]} ∪ timeMilestones s) s in
  Q (set_events
       (events s' ++ [event_record (js "time_on_page") {["seconds" := VNum m]} s' t]) s').

Lemma Q_trackEvent name data w :
  milestone_name name = false -> data !! "event" = None ->
  Q (st w) -> Q (st (trackEvent name data w)).
Proof. intros. by apply Q_track. Qed.

Lemma Q_closeModal m w : Q (st w) -> Q (st (closeModal m w)).
Proof.
  intros H. unfold closeModal. destruct (modal_el m (dom w)); [|done].
  by apply Q_trackEvent.
Qed.

Lemma Q_openModal m w : Q (st w) -> Q (st (openModal m w)).
Proof.
  intros H. unfold openModal. destruct (modal_el m (dom w)); [|done].
  by apply Q_trackEvent.
Qed.

Lemma Q_scroll_milestone p w m : Q (st w) -> Q (st (scroll_milestone p w m)).
Proof.
  intros H. unfold scroll_milestone.
  destruct (num_ge p m); simpl; [|done]. case_bool_decide; simpl; [done|].
  by apply Q_scroll.
Qed.

Lemma Q_time_milestone t w m : Q (st w) -> Q (st (time_milestone t w m)).
Proof.
  intros H. unfold time_milestone.
  destruct (m <=? t); simpl; [|done]. case_bool_decide; simpl; [done|].
  by apply Q_time.
Qed.

Lemma Q_on_scroll p w : Q (st w) -> Q (st (on_scroll p w)).
Proof. intros H. unfold on_scroll. cbn [foldl]. by repeat apply Q_scroll_milestone. Qed.

Lemma Q_on_interval w : Q (st w) -> Q (st (on_interval w)).
Proof. intros H. unfold on_interval. cbn [foldl now]. by repeat apply Q_time_milestone. Qed.

Lemma Q_on_keydown key w : Q (st w) -> Q (st (on_keydown key w)).
Proof.
  intros H. unfold on_keydown. destruct (jsstring_eqb _ _); [|done].
  cbn [foldl modal_keys]. by repeat apply Q_closeModal.
Qed.

Lemma Q_on_submit f w : Q (st w) -> Q (st (on_submit f w)).
Proof.
  intros H. unfold on_submit. destruct (validate_all f (dom w)) as [ok d].
  destruct ok; cbn [negb]; [|done].
  match goal with |- context [formData f ?d] => destruct (formData f d) end; done.
Qed.

Lemma Q_submit_complete f data w : Q (st w) -> Q (st (submit_complete f data w)).
Proof.
  intros H. unfold submit_complete. cbn [now].
  change (Q (st (trackEvent (js "form_submitted")
    (form_event_data f (st (saveLead (mkLead (form_lead_type f) (VDate (clock w (reads w))) data)
       (mkWorld (st w) (dom w) (timers w) (clock w) (S (reads w)) (endTime w)))))
    (saveLead (mkLead (form_lead_type f) (VDate (clock w (reads w))) data)
       (mkWorld (st w) (dom w) (timers w) (clock w) (S (reads w)) (endTime w)))))).
  apply Q_trackEvent; [done | by destruct f | by apply Q_lead].
Qed.

Lemma Q_submit_reset f w : Q (st w) -> Q (st (submit_reset f w)).
Proof. intros H. by apply (Q_closeModal (form_modal f)) in H. Qed.

Lemma Q_on_submit_email w : Q (st w) -> Q (st (on_submit_email w)).
Proof.
  intros H. unfold on_submit_email.
  destruct (find_input _ _) as [[i x]|]; [|done].
  destruct (negb _); [done|]. cbn [now].
  change (Q (st (trackEvent (js "email_captured") {["email" := VStr (trim (in_value x))]}
    (saveLead (mkLead (js "email") (VDate (clock w (reads w))) {["email" := trim (in_value x)]})
       (mkWorld (st w) (dom w) (timers w) (clock w) (S (reads w)) (endTime w)))))).
  apply Q_trackEvent; [done | done | by apply Q_lead].
Qed.

Lemma Q_run_task t w : Q (st w) -> Q (st (run_task t w)).
Proof.
  intros H. destruct t; cbn [run_task].
  - by apply Q_submit_complete.
  - by apply Q_submit_reset.
  - by apply Q_submit_complete.
  - by apply Q_submit_reset.
  - unfold email_reset. cbn. by destruct (inputs (dom w) !! emailInput).
  - done.
Qed.

Lemma Q_fire k w : Q (st w) -> Q (st (fire k w)).
Proof.
  intros H. unfold fire. destruct (timers w !! k); [|done]. by apply Q_run_task.
Qed.

Lemma Q_on_blur i w : Q (st w) -> Q (st (on_blur i w)).
Proof.
  intros H. unfold on_blur. destruct (inputs (dom w) !! i) as [x|]; [|done].
  by destruct (in_form_input x).
Qed.

Lemma Q_on_input i v w : Q (st w) -> Q (st (on_input i v w)).
Proof.
  intros H. unfold on_input. destruct (inputs (dom w) !! i) as [x|]; [|done].
  cbv zeta. by destruct (_ && _).
Qed.

Lemma Q_updateCountdown w : Q (st w) -> Q (st (updateCountdown w)).
Proof. intros H. unfold updateCountdown. by destruct (countdownEl (dom w)). Qed.

(** Every listener preserves the property. *)
Lemma Q_step a w : Q (st w) -> Q (st (step a w)).
Proof.
  intros H. destruct a; cbn [step].
  - by apply Q_trackEvent.
  - by apply Q_trackEvent.
  - by apply Q_on_scroll.
  - by apply Q_on_interval.
  - destruct targetFound; [by apply Q_trackEvent | done].
  - by apply Q_closeModal.
  - by apply Q_closeModal.
  - by apply Q_on_keydown.
  - apply Q_openModal. by apply Q_trackEvent.
  - apply Q_openModal. by apply Q_trackEvent.
  - apply Q_openModal. by apply Q_trackEvent.
  - apply Q_openModal. by apply Q_closeModal.
  - apply Q_openModal. by apply Q_closeModal.
  - apply Q_openModal. by apply Q_trackEvent.
  - by apply Q_on_blur.
  - by apply Q_on_input.
  - by apply Q_on_submit.
  - by apply Q_on_submit_email.
  - by apply Q_fire.
  - by apply Q_trackEvent.
  - by apply Q_trackEvent.
  - by apply Q_trackEvent.
  - by apply Q_trackEvent.
  - cbv zeta. destruct (chat_open _); [by apply Q_trackEvent | done].
  - done.
  - destruct isChatAction; [by apply Q_trackEvent | done].
  - destruct (is_empty _); [done | by apply Q_trackEvent].
  - apply Q_trackEvent; [done | done |]. by apply Q_openModal.
  - apply Q_trackEvent; [done | done |]. by apply Q_openModal.
  - by apply Q_updateCountdown.
Qed.

Lemma Q_run l : forall w, Q (st w) -> Q (st (run l w)).
Proof.
  induction l as [|a l IH]; intros w H; [done|].
  apply IH. by apply Q_step.
Qed.

Lemma Q_init suffix draw clk d :
  (forall s, events s = [] -> scrollDepths s = ∅ -> timeMilestones s = ∅ -> Q s) ->
  Q (st (init suffix draw clk d)).
Proof.
  intros H0. unfold init. cbv zeta.
  match goal with |- context [trackEvent ?n ?dt ?w0] =>
    assert (H : Q (st (trackEvent n dt w0))) by (apply Q_trackEvent; [done | done | by apply H0])
  end.
  destruct (countdownEl _); [|done].
  cbn [now]. by apply Q_updateCountdown.
Qed.
End Preservation.

(** ** Milestones *)

Lemma count_events_app p l1 l2 :
  count_events p (l1 ++ l2) = (count_events p l1 + count_events p l2)%nat.
Proof. induction l1 as [|e l1 IH]; simpl; [done|]. rewrite IH. lia. Qed.

Lemma event_record_lookup_data name data s t k v :
  data !! k = Some v -> event_record name data s t !! k = Some v.
Proof. intros H. unfold event_record, spread. by apply lookup_union_Some_l. Qed.

Lemma event_record_name name data s t :
  data !! "event" = None -> event_record name data s t !! "event" = Some (VStr name).
Proof.
  intros H. unfold event_record, spread. rewrite lookup_union_r by done.
  by simplify_map_eq.
Qed.

Lemma not_milestone_event name data s t m :
  milestone_name name = false -> data !! "event" = None ->
  is_scroll_depth m (event_record name data s t) = false /\
  is_time_on_page m (event_record name data s t) = false.
Proof.
  intros Hn Hd. unfold milestone_name, jsstring_eqb in Hn.
  apply orb_false_iff in Hn as [H1 H2].
  apply bool_decide_eq_false in H1, H2.
  unfold is_scroll_depth, is_time_on_page, event_named.
  rewrite event_record_name by done.
  split; apply andb_false_iff; left; apply bool_decide_eq_false; congruence.
Qed.

Lemma milestones_inv_track s name data t :
  milestone_name name = false -> data !! "event" = None -> milestones_inv s ->
  milestones_inv (set_events (events s ++ [event_record name data s t]) s).
Proof.
  intros Hn Hd Hinv m. destruct (Hinv m) as [H1 H2].
  destruct (not_milestone_event name data s t m Hn Hd) as [E1 E2].
  cbn [events set_events scrollDepths timeMilestones]. rewrite !count_events_app.
  cbn [count_events]. rewrite E1, E2, H1, H2. split; lia.
Qed.

Lemma milestones_inv_lead s l : milestones_inv s -> milestones_inv (set_leads (leads s ++ [l]) s).
Proof. intros Hinv m. apply Hinv. Qed.

Lemma scroll_depth_event s t m m' :
  is_scroll_depth m' (event_record (js "scroll_depth") {["depth" := VNum m]} s t)
    = bool_decide (m' = m) /\
  is_time_on_page m' (event_record (js "scroll_depth") {["depth" := VNum m]} s t) = false.
Proof.
  unfold is_scroll_depth, is_time_on_page, event_named.
  rewrite event_record_name by done.
  rewrite (event_record_lookup_data _ _ _ _ "depth" (VNum m)) by by simplify_map_eq.
  split.
  - rewrite bool_decide_eq_true_2 by done. simpl.
    apply bool_decide_ext. split; intros; congruence.
  - by rewrite bool_decide_eq_false_2.
Qed.

Lemma time_on_page_event s t m m' :
  is_time_on_page m' (event_record (js "time_on_page") {["seconds" := VNum m]} s t)
    = bool_decide (m' = m) /\
  is_scroll_depth m' (event_record (js "time_on_page") {["seconds" := VNum m]} s t) = false.
Proof.
  unfold is_scroll_depth, is_time_on_page, event_named.
  rewrite event_record_name by done.
  rewrite (event_record_lookup_data _ _ _ _ "seconds" (VNum m)) by by simplify_map_eq.
  split.
  - rewrite bool_decide_eq_true_2 by done. simpl.
    apply bool_decide_ext. split; intros; congruence.
  - by rewrite bool_decide_eq_false_2.
Qed.

Lemma milestones_inv_scroll s m t :
  m ∉ scrollDepths s -> milestones_inv s ->
  let s' := set_scrollDepths ({[m]} ∪ scrollDepths s) s in
  milestones_inv
    (set_events
       (events s' ++ [event_record (js "scroll_depth") {["depth" := VNum m]} s' t]) s').
Proof.
  intros Hm Hinv s' m'. destruct (Hinv m') as [H1 H2].
  destruct (scroll_depth_event s' t m m') as [E1 E2].
  cbn [events set_events scrollDepths timeMilestones]. rewrite !count_events_app.
  cbn [count_events]. rewrite E1, E2. subst s'.
  cbn [events set_scrollDepths scrollDepths timeMilestones]. rewrite H1, H2.
  split; [|lia].
  repeat case_bool_decide; try lia; exfalso.
  all: repeat match goal with
       | H : _ ∈ _ ∪ _ |- _ => apply elem_of_union in H as [H|H]
       | H : _ ∈ {[ _ ]} |- _ => apply elem_of_singleton in H
       | H : ¬ (_ ∈ _ ∪ _) |- _ => apply H, elem_of_union
       end; try (subst; tauto).
  all: try (left; by apply elem_of_singleton).
Qed.

Lemma milestones_inv_time s m t :
  m ∉ timeMilestones s -> milestones_inv s ->
  let s' := set_timeMilestones ({[m]} ∪ timeMilestones s) s in
  milestones_inv
    (set_events
       (events s' ++ [event_record (js "time_on_page") {["seconds" := VNum m]} s' t]) s').
Proof.
  intros Hm Hinv s' m'. destruct (Hinv m') as [H1 H2].
  destruct (time_on_page_event s' t m m') as [E1 E2].
  cbn [events set_events scrollDepths timeMilestones]. rewrite !count_events_app.
  cbn [count_events]. rewrite E1, E2. subst s'.
  cbn [events set_timeMilestones scrollDepths timeMilestones]. rewrite H1, H2.
  split; [lia|].
  repeat case_bool_decide; try lia; exfalso.
  all: repeat match goal with
       | H : _ ∈ _ ∪ _ |- _ => apply elem_of_union in H as [H|H]
       | H : _ ∈ {[ _ ]} |- _ => apply elem_of_singleton in H
       | H : ¬ (_ ∈ _ ∪ _) |- _ => apply H, elem_of_union
       end; try (subst; tauto).
  all: try (left; by apply elem_of_singleton).
Qed.

Lemma milestones_inv_step a w : milestones_inv (st w) -> milestones_inv (st (step a w)).
Proof.
  apply Q_step; auto using milestones_inv_track, milestones_inv_lead,
    milestones_inv_scroll, milestones_inv_time.
Qed.

Lemma milestones_inv_reachable suffix draw clk d l :
  milestones_inv (st (run l (init suffix draw clk d))).
Proof.
  apply Q_run; auto using milestones_inv_track, milestones_inv_lead,
    milestones_inv_scroll, milestones_inv_time.
  apply Q_init; auto using milestones_inv_track, milestones_inv_lead,
    milestones_inv_scroll, milestones_inv_time.
  intros s He Hs Ht m. rewrite He, Hs, Ht. split; reflexivity.
Qed.

(** ** The session state only grows *)

Lemma grown_from_refl s : grown_from s s.
Proof.
  repeat split; try done; by exists []; rewrite app_nil_r.
Qed.

Lemma grown_from_track s0 s name data t :
  grown_from s0 s -> grown_from s0 (set_events (events s ++ [event_record name data s t]) s).
Proof.
  intros (Hs & [es He] & Hl & Hd & Ht). repeat split; try done.
  exists (es ++ [event_record name data s t]). cbn. rewrite He. by rewrite app_assoc.
Qed.

Lemma grown_from_lead s0 s l : grown_from s0 s -> grown_from s0 (set_leads (leads s ++ [l]) s).
Proof.
  intros (Hs & He & [ls Hl] & Hd & Ht). repeat split; try done.
  exists (ls ++ [l]). cbn. rewrite Hl. by rewrite app_assoc.
Qed.

Lemma grown_from_scroll s0 s m t :
  grown_from s0 s ->
  let s' := set_scrollDepths ({[m]} ∪ scrollDepths s) s in
  grown_from s0
    (set_events
       (events s' ++ [event_record (js "scroll_depth") {["depth" := VNum m]} s' t]) s').
Proof.
  intros (Hs & [es He] & Hl & Hd & Ht) s'. repeat split; try done.
  - eexists. cbn. rewrite He. by rewrite <- app_assoc.
  - cbn. etrans; [done | apply union_subseteq_r].
Qed.

Lemma grown_from_time s0 s m t :
  grown_from s0 s ->
  let s' := set_timeMilestones ({[m]} ∪ timeMilestones s) s in
  grown_from s0
    (set_events
       (events s' ++ [event_record (js "time_on_page") {["seconds" := VNum m]} s' t]) s').
Proof.
  intros (Hs & [es He] & Hl & Hd & Ht) s'. repeat split; try done.
  - eexists. cbn. rewrite He. by rewrite <- app_assoc.
  - cbn. etrans; [done | apply union_subseteq_r].
Qed.

Lemma grown_from_run l w : grown_from (st w) (st (run l w)).
Proof.
  apply (Q_run (grown_from (st w)));
    auto using grown_from_track, grown_from_lead, grown_from_scroll, grown_from_time,
      grown_from_refl.
Qed.

Lemma grown_from_step a w : grown_from (st w) (st (step a w)).
Proof. apply (grown_from_run [a]). Qed.

(** C2. Along every sequence of listener invocations after a page load,
    the events hold at most one [scroll_depth] event of depth [m] and at
    most one [time_on_page] event of [m] seconds, and a milestone that is
    in its set stays there whatever runs next. *)
Theorem C2_milestone_fires_at_most_once suffix draw clk d (l : list Action) (m : Z) :
  let w := run l (init suffix draw clk d) in
  (count_events (is_scroll_depth m) (events (st w)) <= 1)%nat /\
  (count_events (is_time_on_page m) (events (st w)) <= 1)%nat /\
  forall l', scrollDepths (st w) ⊆ scrollDepths (st (run l' w)) /\
             timeMilestones (st w) ⊆ timeMilestones (st (run l' w)).
Proof.
  intros w. destruct (milestones_inv_reachable suffix draw clk d l m) as [H1 H2].
  fold w in H1, H2. rewrite H1, H2. clear H1 H2. split; [|split].
  - destruct (bool_decide _); lia.
  - destruct (bool_decide _); lia.
  - intros l'. destruct (grown_from_run l' w) as (_ & _ & _ & Hd & Ht). done.
Qed.

(** The sample page: the four depths fire once each over repeated scrolls,
    also when the percentage is infinite, and not at all when it is not a
    number. *)
Example scroll_fires_once :
  let w := run [Scroll (Fin 60); Scroll (Fin 80); Scroll PosInf; Scroll NaN; Interval]
             (sample_world "Ann" "a@b.co" "1234567890" "a@b.co") in
  count_events (is_scroll_depth 25) (events (st w)) = 1%nat /\
  count_events (is_scroll_depth 50) (events (st w)) = 1%nat /\
  count_events (is_scroll_depth 75) (events (st w)) = 1%nat /\
  count_events (is_scroll_depth 100) (events (st w)) = 1%nat /\
  count_events (is_time_on_page 30) (events (st w)) = 0%nat /\
  scrollDepths (st w) = {[25; 50; 75; 100]}.
Proof. vm_compute. repeat split. Qed.

(** ** The variant of the session *)

Lemma variant_of_draw_A draw : variant_of_draw draw = VariantA <-> (draw < 1 # 2)%Q.
Proof.
  unfold variant_of_draw, Qlt_bool.
  destruct (Qle_bool (1 # 2) draw) eqn:E; simpl.
  - apply Qle_bool_iff in E. split; [done|]. intros H. by apply Qlt_not_le in H.
  - split; [|done]. intros _. apply Qnot_le_lt. intros H.
    apply Qle_bool_iff in H. congruence.
Qed.

Lemma variant_of_draw_B draw : variant_of_draw draw = VariantB <-> (1 # 2 <= draw)%Q.
Proof.
  unfold variant_of_draw, Qlt_bool.
  destruct (Qle_bool (1 # 2) draw) eqn:E; simpl.
  - apply Qle_bool_iff in E. done.
  - split; [done|]. intros H. apply Qle_bool_iff in H. congruence.
Qed.

Lemma grid_draw_A p k : variant_of_draw (grid_draw p k) = VariantA <-> (k < Pos.to_nat p)%nat.
Proof.
  rewrite variant_of_draw_A. unfold grid_draw, Qlt. simpl. lia.
Qed.

Lemma grid_draw_B p k : variant_of_draw (grid_draw p k) = VariantB <-> (Pos.to_nat p <= k)%nat.
Proof.
  rewrite variant_of_draw_B. unfold grid_draw, Qle. simpl. lia.
Qed.

Lemma length_filter_below n m : forall a,
  length (filter (fun k => (k < n)%nat) (seq a m)) = Nat.min (n - a) m.
Proof.
  induction m as [|m IH]; intros a; simpl; [lia|].
  rewrite filter_cons. case_decide; simpl; rewrite IH; lia.
Qed.

Lemma length_filter_above n m : forall a,
  length (filter (fun k => (n <= k)%nat) (seq a m)) = (m - (n - a))%nat.
Proof.
  induction m as [|m IH]; intros a; simpl; [lia|].
  rewrite filter_cons. case_decide; simpl; rewrite IH; lia.
Qed.

Lemma draws_giving_half p :
  length (draws_giving VariantA p) = Pos.to_nat p /\
  length (draws_giving VariantB p) = Pos.to_nat p.
Proof.
  unfold draws_giving. split.
  - rewrite (list_filter_iff _ (fun k => (k < Pos.to_nat p)%nat)) by apply grid_draw_A.
    rewrite length_filter_below. lia.
  - rewrite (list_filter_iff _ (fun k => (Pos.to_nat p <= k)%nat)) by apply grid_draw_B.
    rewrite length_filter_above. lia.
Qed.

Lemma session_run l w : session_of (st (run l w)) = session_of (st w).
Proof. by destruct (grown_from_run l w) as [H _]. Qed.

(** C9. The page load assigns the variant chosen by the draw: [A] exactly
    when the draw is below one half, [B] otherwise; on a draw that is
    uniform on a grid of [[0, 1)] each variant has half of the draws; and
    no sequence of listener invocations changes the variant, the session
    id or the start time. *)
Theorem C9_one_variant_per_session :
  (forall suffix draw clk d,
     variant (st (init suffix draw clk d)) = variant_of_draw draw) /\
  (forall draw, variant_of_draw draw = VariantA <-> (draw < 1 # 2)%Q) /\
  (forall draw, variant_of_draw draw = VariantB <-> (1 # 2 <= draw)%Q) /\
  (forall p, length (draws_giving VariantA p) = Pos.to_nat p /\
             length (draws_giving VariantB p) = Pos.to_nat p) /\
  (forall l w,
     sessionId (st (run l w)) = sessionId (st w) /\
     variant (st (run l w)) = variant (st w) /\
     startTime (st (run l w)) = startTime (st w)).
Proof.
  split; [|split; [|split; [|split]]].
  - intros. unfold init. cbv zeta. destruct (countdownEl _); [|done].
    cbn [now]. unfold updateCountdown. by destruct (countdownEl _).
  - apply variant_of_draw_A.
  - apply variant_of_draw_B.
  - apply draws_giving_half.
  - intros l w. pose proof (session_run l w) as H. unfold session_of in H.
    by injection H as -> -> ->.
Qed.

Lemma C9_variant_witness :
  variant_of_draw (1 # 4)%Q = VariantA /\ variant_of_draw (3 # 4)%Q = VariantB.
Proof.
  split.
  - apply (proj2 (proj1 (proj2 C9_one_variant_per_session) (1 # 4)%Q)). reflexivity.
  - apply (proj2 (proj1 (proj2 (proj2 C9_one_variant_per_session)) (3 # 4)%Q)).
    vm_compute. discriminate.
Defined.

(** ** The event tracker *)

Lemma trackEvent_events name data w :
  events (st (trackEvent name data w))
  = events (st w) ++ [event_record name data (st w) (clock w (reads w))].
Proof. reflexivity. Qed.

(** C10. A key of the extra fields that is also a key of the session
    context ([event], [timestamp], [variant], [sessionId]) keeps the value
    of the extra fields in the appended event, as every key of the extra
    fields does; and there is a call after which the appended event carries
    neither the session id nor the variant of the session. *)
Theorem C10_extra_fields_override_context :
  (forall name data w k v,
     data !! k = Some v ->
     exists e, events (st (trackEvent name data w)) = events (st w) ++ [e] /\
               e !! k = Some v) /\
  (exists name data w e,
     events (st (trackEvent name data w)) = events (st w) ++ [e] /\
     e !! "sessionId" <> Some (VStr (sessionId (st w))) /\
     e !! "variant" <> Some (VStr (variant_name (variant (st w))))).
Proof.
  split.
  - intros name data w k v H. eexists. split; [apply trackEvent_events|].
    by apply event_record_lookup_data.
  - exists (js "cta_clicked"),
      (<["sessionId" := VStr (js "forged")]> (<["variant" := VStr (js "Z")]> ∅)),
      (sample_world "Ann" "a@b.co" "1" "a@b.co").
    eexists. split; [apply trackEvent_events|].
    split; by vm_compute.
Qed.

Lemma C10_override_witness :
  exists e,
    events (st (trackEvent (js "x") {["sessionId" := VStr (js "forged")]}
                  (sample_world "Ann" "a@b.co" "1" "a@b.co")))
    = events (st (sample_world "Ann" "a@b.co" "1" "a@b.co")) ++ [e] /\
    e !! "sessionId" = Some (VStr (js "forged")).
Proof.
  apply (proj1 C10_extra_fields_override_context).
  reflexivity.
Defined.

(** ** Countdown *)

Lemma updateCountdown_text w old :
  countdownEl (dom w) = Some old ->
  countdownEl (dom (updateCountdown w))
  = Some (countdown_text (endTime w - clock w (reads w))).
Proof. intros H. unfold updateCountdown. by rewrite H. Qed.

(** C8. On a page with a countdown element, an update at or after the
    target instant renders [Expired], and an update one second before it
    renders [0d 0h 0m 1s]; in between the text is made of the integer
    quotients of the remaining milliseconds. *)
Theorem C8_countdown_rendering w old :
  countdownEl (dom w) = Some old ->
  let diff := endTime w - clock w (reads w) in
  (diff <= 0 -> countdownEl (dom (updateCountdown w)) = Some (js "Expired")) /\
  (diff = 1000 -> countdownEl (dom (updateCountdown w)) = Some (js "0d 0h 0m 1s")) /\
  (0 < diff ->
   countdownEl (dom (updateCountdown w))
   = Some (int_to_string (diff / 86400000) ++ js "d "
           ++ int_to_string (diff / 3600000 mod 24) ++ js "h "
           ++ int_to_string (diff / 60000 mod 60) ++ js "m "
           ++ int_to_string (diff / 1000 mod 60) ++ js "s")).
Proof.
  intros H diff. rewrite (updateCountdown_text w old H). fold diff.
  split; [|split]; intros Hd.
  - unfold countdown_text. by rewrite (proj2 (Z.leb_le diff 0) Hd).
  - by rewrite Hd.
  - unfold countdown_text. rewrite (proj2 (Z.leb_gt diff 0) Hd). reflexivity.
Qed.

Lemma C8_countdown_witness :
  countdownEl (dom (step CountdownTick countdown_world)) = Some (js "0d 0h 0m 1s") /\
  countdownEl (dom (step CountdownTick (step CountdownTick countdown_world)))
  = Some (js "Expired").
Proof.
  split.
  - apply (proj1 (proj2 (C8_countdown_rendering countdown_world (js "6d 23h 45m 12s")
                           ltac:(vm_compute; reflexivity)))).
    vm_compute. reflexivity.
  - apply (proj1 (C8_countdown_rendering (step CountdownTick countdown_world)
                    (js "0d 0h 0m 1s") ltac:(vm_compute; reflexivity))).
    vm_compute. discriminate.
Defined.


(** ** The validator *)

Lemma validity_spec_agree input :
  in_minlength input = None -> validity input = validate_spec input.
Proof.
  intros H. unfold validity, validate_spec, rule_order, first_failure, rule_failure.
  rewrite H. cbv zeta.
  destruct (in_required input && is_empty _); [done|].
  destruct (jsstring_eqb (in_type input) (js "email") && _ && _); [done|].
  destruct (includes (js "Name") _ && _ && _); [done|].
  by destruct (includes (js "DOT") _ && _ && _).
Qed.

(** Where the chain of the script and the reading of the specification
    part: only on a field with a [minlength] attribute that the value
    satisfies, and there the script accepts what a later rule refuses. *)
Lemma validity_spec_differ input :
  validity input <> validate_spec input ->
  exists attr msg,
    in_minlength input = Some attr /\
    int_lt_num (Z.of_nat (length (trim (in_value input)))) (parseInt attr) = false /\
    validity input = (true, []) /\
    validate_spec input = (false, msg) /\
    (rule_failure input NameRule = Some msg \/ rule_failure input NumericRule = Some msg).
Proof.
  intros Hne.
  destruct (in_minlength input) as [attr|] eqn:Hm.
  2: { by destruct Hne; apply validity_spec_agree. }
  remember (validity input) as v eqn:Hv.
  remember (validate_spec input) as vs eqn:Hvs.
  unfold validity in Hv. rewrite Hm in Hv. cbv zeta in Hv.
  unfold validate_spec, rule_order, first_failure in Hvs.
  unfold rule_failure at 1 2 3 in Hvs. rewrite Hm in Hvs. cbv zeta in Hvs.
  destruct (in_required input && is_empty _); [congruence|].
  destruct (jsstring_eqb (in_type input) (js "email") && _ && _); [congruence|].
  destruct (int_lt_num _ _) eqn:Hlt; [congruence|].
  destruct (rule_failure input NameRule) as [msg|] eqn:Hn.
  { exists attr, msg. repeat split; auto. }
  destruct (rule_failure input NumericRule) as [msg|] eqn:Hd; [|congruence].
  exists attr, msg. repeat split; auto.
Qed.

(** C3. On a name field that has a [minlength] attribute and holds [J0hn],
    the chain of the script answers valid with an empty message, although
    the name rule applies and fails there and is the first rule to fail in
    the stated priority order. *)
Theorem C3_minlength_branch_hides_later_rules :
  validity name_field_with_minlength = (true, []) /\
  first_failure name_field_with_minlength [RequiredRule; EmailRule; MinLengthRule] = None /\
  rule_failure name_field_with_minlength NameRule
    = Some (js "Please enter a valid name (letters only)") /\
  validate_spec name_field_with_minlength
    = (false, js "Please enter a valid name (letters only)").
Proof. by vm_compute. Qed.

Lemma digit_not_space c : is_digit c = true -> is_space c = false.
Proof.
  unfold is_digit. intros H. apply andb_true_iff in H as [H1 H2].
  apply N.leb_le in H1, H2.
  assert (Hc : (c = 48 \/ c = 49 \/ c = 50 \/ c = 51 \/ c = 52 \/ c = 53 \/ c = 54
                \/ c = 55 \/ c = 56 \/ c = 57)%N) by lia.
  repeat destruct Hc as [->|Hc]; try reflexivity. by subst.
Qed.

Lemma digit_not_letter_or_space c : is_digit c = true -> letter_or_space c = false.
Proof.
  intros H. unfold letter_or_space. rewrite (digit_not_space c H).
  unfold is_digit in H. apply andb_true_iff in H as [H1 H2].
  apply N.leb_le in H1, H2. unfold is_lower, is_upper.
  rewrite (proj2 (N.leb_gt 97 c)) by lia. rewrite (proj2 (N.leb_gt 65 c)) by lia.
  reflexivity.
Qed.

Lemma trim_start_keeps c s : c ∈ s -> is_space c = false -> c ∈ trim_start s.
Proof.
  intros Hin Hc. induction s as [|a s IH]; simpl; [done|].
  destruct (is_space a) eqn:Ha; [|done].
  apply elem_of_cons in Hin as [->|Hin]; [congruence | auto].
Qed.

Lemma trim_keeps c s : c ∈ s -> is_space c = false -> c ∈ trim s.
Proof.
  intros Hin Hc. unfold trim.
  apply list_elem_of_In, (proj1 (in_rev _ _)), list_elem_of_In.
  apply trim_start_keeps; [|done].
  apply list_elem_of_In, (proj1 (in_rev _ _)), list_elem_of_In.
  by apply trim_start_keeps.
Qed.

Lemma trim_start_digits s : forallb is_digit s = true -> trim_start s = s.
Proof.
  destruct s as [|c s]; simpl; [done|]. intros H.
  apply andb_true_iff in H as [Hc _]. by rewrite (digit_not_space c Hc).
Qed.

Lemma trim_digits s : forallb is_digit s = true -> trim s = s.
Proof.
  intros H. unfold trim. rewrite (trim_start_digits s H).
  rewrite trim_start_digits; [apply rev_involutive|].
  apply forallb_forall. intros c Hc. apply in_rev in Hc.
  by apply (proj1 (forallb_forall _ _) H).
Qed.

Lemma nameRegex_rejects_digit c s :
  c ∈ s -> is_digit c = true -> test nameRegex s = false.
Proof.
  intros Hin Hc. rewrite test_nameRegex. apply andb_false_iff. right.
  apply not_true_is_false. intros H.
  apply (proj1 (forallb_forall _ _)) with (x := c) in H; [|by apply list_elem_of_In].
  rewrite (digit_not_letter_or_space c Hc) in H. done.
Qed.

Lemma is_empty_false_elem (c : N) s : c ∈ s -> is_empty s = false.
Proof. destruct s; [by intros ?%elem_of_nil | done]. Qed.

(** C4. The verdict of the validator on the five examples. An empty value
    of a required field is refused, and [a@b] is refused in an email field,
    whatever the other attributes. [a@b.co] in an email field and ten
    digits in a DOT field pass their own rule, and are accepted unless the
    length rule or the name rule refuses them. A value with a digit in a
    name field is refused when the field has no [minlength] attribute, but
    it is accepted exactly when the field has one and passes its length
    check (and the email rule does not refuse it): the branch of the length
    rule ends the chain before the name rule, as for [J0hn] in the field
    [entName] with [minlength="2"]. *)
Theorem C4_validator_examples :
  (forall input,
     in_required input = true -> trim (in_value input) = [] ->
     (validity input).1 = false) /\
  (forall input,
     in_type input = js "email" -> trim (in_value input) = js "a@b" ->
     (validity input).1 = false) /\
  (forall input,
     in_type input = js "email" -> trim (in_value input) = js "a@b.co" ->
     (validity input).1
     = match in_minlength input with
       | Some attr => negb (int_lt_num 6 (parseInt attr))
       | None => negb (includes (js "Name") (in_id input))
                 && negb (includes (js "DOT") (in_id input))
       end) /\
  (forall input,
     includes (js "DOT") (in_id input) = true -> in_type input <> js "email" ->
     length (in_value input) = 10%nat -> forallb is_digit (in_value input) = true ->
     (validity input).1
     = match in_minlength input with
       | Some attr => negb (int_lt_num 10 (parseInt attr))
       | None => negb (includes (js "Name") (in_id input))
       end) /\
  (forall input c,
     includes (js "Name") (in_id input) = true ->
     c ∈ in_value input -> is_digit c = true ->
     ((validity input).1 = true <->
      exists attr,
        in_minlength input = Some attr /\
        int_lt_num (Z.of_nat (length (trim (in_value input)))) (parseInt attr) = false /\
        (in_type input = js "email" -> test emailRegex (trim (in_value input)) = true))) /\
  (includes (js "Name") (in_id name_field_with_minlength) = true /\
   48%N ∈ in_value name_field_with_minlength /\ is_digit 48 = true /\
   validity name_field_with_minlength = (true, [])).
Proof.
  split; [|split; [|split; [|split; [|split]]]].
  - intros input Hr Hv. unfold validity. rewrite Hr, Hv. reflexivity.
  - intros input Ht Hv. unfold validity. rewrite Ht, Hv.
    by destruct (in_required input).
  - intros input Ht Hv. unfold validity. rewrite Ht, Hv. cbv zeta.
    change (Z.of_nat (length (js "a@b.co"))) with 6.
    replace (in_required input && is_empty (js "a@b.co")) with false
      by (by destruct (in_required input)).
    replace (jsstring_eqb (js "email") (js "email") && negb (is_empty (js "a@b.co"))
             && negb (test emailRegex (js "a@b.co"))) with false
      by (vm_compute; reflexivity).
    destruct (in_minlength input) as [attr|].
    + by destruct (int_lt_num 6 (parseInt attr)).
    + replace (test nameRegex (js "a@b.co")) with false by (vm_compute; reflexivity).
      replace (test digitsRegex (js "a@b.co")) with false by (vm_compute; reflexivity).
      replace (is_empty (js "a@b.co")) with false by reflexivity.
      destruct (includes (js "Name") (in_id input)); [reflexivity|].
      by destruct (includes (js "DOT") (in_id input)).
  - intros input Hd Ht Hl Hdig. unfold validity.
    rewrite Hd, (trim_digits _ Hdig), test_digitsRegex, Hdig, Hl. cbv zeta.
    assert (He : is_empty (in_value input) = false) by (by destruct (in_value input)).
    assert (Hty : jsstring_eqb (in_type input) (js "email") = false)
      by (by apply bool_decide_eq_false).
    rewrite He, Hty, andb_false_r. cbn [andb negb].
    change (Z.of_nat 10) with 10.
    destruct (in_minlength input) as [attr|].
    + by destruct (int_lt_num 10 (parseInt attr)).
    + destruct (includes (js "Name") (in_id input)); [|reflexivity].
      destruct (in_value input) as [|c s] eqn:Hval; [done|].
      assert (Hc : is_digit c = true) by (by apply andb_true_iff in Hdig as [? _]).
      rewrite (nameRegex_rejects_digit c (c :: s)); [reflexivity | left | done].
  - intros input c Hn Hin Hc.
    assert (Hin' : c ∈ trim (in_value input))
      by (apply trim_keeps; [done | by apply digit_not_space]).
    unfold validity. rewrite Hn. cbv zeta.
    rewrite (is_empty_false_elem c _ Hin'), (nameRegex_rejects_digit c _ Hin' Hc).
    rewrite andb_false_r. cbn [andb negb].
    destruct (jsstring_eqb (in_type input) (js "email")) eqn:Hty.
    + apply bool_decide_eq_true in Hty. cbn [andb].
      destruct (test emailRegex (trim (in_value input))) eqn:Hre; cbn [negb].
      * destruct (in_minlength input) as [attr|].
        -- destruct (int_lt_num _ (parseInt attr)) eqn:Hlt; cbn [fst].
           ++ split; [done|]. intros (a & [= <-] & Hl & _). congruence.
           ++ split; [|done]. intros _. by exists attr.
        -- cbn [fst]. split; [done|]. by intros (a & [=] & _).
      * cbn [fst]. split; [done|]. intros (a & _ & _ & He). by specialize (He Hty).
    + apply bool_decide_eq_false in Hty. cbn [andb].
      destruct (in_minlength input) as [attr|].
      * destruct (int_lt_num _ (parseInt attr)) eqn:Hlt; cbn [fst].
        -- split; [done|]. intros (a & [= <-] & Hl & _). congruence.
        -- split; [|done]. intros _. by exists attr.
      * cbn [fst]. split; [done|]. by intros (a & [=] & _).
  - split; [vm_compute; reflexivity|]. split; [|split; vm_compute; reflexivity].
    apply list_elem_of_In. vm_compute. tauto.
Qed.

Lemma C4_validator_witness :
  (validity (field None "entCompany" "text" "  " true None)).1 = false /\
  (validity (field None "entEmail" "email" "a@b" true None)).1 = false /\
  (validity (field None "entEmail" "email" "a@b.co" true None)).1 = true /\
  (validity (field None "carDOT" "text" "1234567890" true None)).1 = true /\
  (validity (field None "entName" "text" "J0hn" true None)).1 <> true /\
  (validity (field None "entName" "text" "J0hn" true (Some (js "2")))).1 = true.
Proof.
  destruct C4_validator_examples as (H1 & H2 & H3 & H4 & H5 & _).
  split; [|split; [|split; [|split; [|split]]]].
  - apply H1; reflexivity.
  - apply H2; reflexivity.
  - rewrite H3; reflexivity.
  - rewrite H4; try reflexivity. intros H. vm_compute in H. discriminate.
  - intros H. apply (H5 _ 48%N) in H as (attr & H & _).
    + discriminate.
    + reflexivity.
    + apply list_elem_of_In. vm_compute. tauto.
    + reflexivity.
  - apply (H5 _ 48%N).
    + reflexivity.
    + apply list_elem_of_In. vm_compute. tauto.
    + reflexivity.
    + exists (js "2"). split; [reflexivity|]. split; [vm_compute; reflexivity|].
      intros H. vm_compute in H. discriminate.
Defined.

(** ** What validation does to the document *)

Lemma validity_attributes a b :
  rule_attributes a = rule_attributes b -> in_value a = in_value b ->
  validity a = validity b.
Proof.
  unfold rule_attributes. intros H Hv. injection H as Hi Ht Hr Hm.
  unfold validity. by rewrite Hi, Ht, Hr, Hm, Hv.
Qed.

Lemma validity_unmark a b : unmark a = unmark b -> validity a = validity b.
Proof.
  intros H. apply validity_attributes.
  - unfold rule_attributes.
    change (in_id a) with (in_id (unmark a)). change (in_type a) with (in_type (unmark a)).
    change (in_required a) with (in_required (unmark a)).
    change (in_minlength a) with (in_minlength (unmark a)). by rewrite H.
  - change (in_value a) with (in_value (unmark a)). by rewrite H.
Qed.

Lemma update_ui_rest i input ok msg d :
  rest_of_dom (update_ui i input ok msg d) = rest_of_dom d.
Proof. unfold update_ui. by destruct (texts d !! _). Qed.

Lemma update_ui_inputs i input ok msg d :
  inputs (update_ui i input ok msg d) = <[i := mark ok input]> (inputs d).
Proof. unfold update_ui. by destruct (texts d !! _). Qed.

Lemma unmark_mark ok input : unmark (mark ok input) = unmark input.
Proof. unfold mark. cbv zeta. destruct (ok && _); [done|]. by destruct (negb ok). Qed.

Lemma update_ui_texts i input ok msg d k :
  k <> in_id input ++ js "Error" ->
  texts (update_ui i input ok msg d) !! k = texts d !! k.
Proof.
  intros Hk. unfold update_ui. destruct (texts d !! _); [|done].
  cbn. by rewrite lookup_insert_ne.
Qed.

Lemma update_ui_unmark i input y ok msg d :
  inputs d !! i = Some y -> unmark y = unmark input ->
  unmark <$> inputs (update_ui i input ok msg d) = unmark <$> inputs d.
Proof.
  intros Hi Hy. rewrite update_ui_inputs.
  rewrite list_fmap_insert, unmark_mark. apply list_insert_id.
  rewrite list_lookup_fmap, Hi. simpl. by rewrite Hy.
Qed.

Lemma validateField_eq i input d :
  validateField i input d
  = ((validity input).1, update_ui i input (validity input).1 (validity input).2 d).
Proof. unfold validateField. by destruct (validity input). Qed.

(** C7 as stated does not hold: validating the empty, required name field
    of the sample page writes the message into its error element and marks
    the field invalid. *)
Lemma C7_validateField_writes_document :
  let d := sample_dom "" "a@b.co" "1234567890" "a@b.co" in
  let x := field (Some EnterpriseForm) "entName" "text" "" true None in
  inputs d !! 0%nat = Some x /\
  texts d !! js "entNameError" = Some [] /\
  texts (validateField 0 x d).2 !! js "entNameError" = Some (js "This field is required") /\
  in_invalid <$> inputs d !! 0%nat = Some false /\
  in_invalid <$> inputs (validateField 0 x d).2 !! 0%nat = Some true /\
  ~ validateField_leaves_document.
Proof.
  intros d x. do 5 (split; [vm_compute; reflexivity|]).
  intros H. specialize (H 0%nat x d eq_refl).
  apply (f_equal (fun d => in_invalid <$> inputs d !! 0%nat)) in H.
  vm_compute in H. discriminate.
Qed.

(** C7, amended. The verdict and the message are a function of the value
    and of the attributes that the rules read, whatever the document and
    the marks of the field; [validateField] touches neither the session
    state nor the timers. It does write the document: the message becomes
    the text of the field's error element when the page has one (and no
    element is created when it has none), and the field gets its marks from
    the verdict: [invalid] exactly when the verdict is invalid, [valid]
    exactly when it is valid and the trimmed value is not empty. Nothing
    else of the document changes. *)
Theorem C7_validation_deterministic_and_framed :
  (forall a b,
     rule_attributes a = rule_attributes b -> in_value a = in_value b ->
     validity a = validity b) /\
  (forall i j a b d d',
     rule_attributes a = rule_attributes b -> in_value a = in_value b ->
     (validateField i a d).1 = (validateField j b d').1) /\
  (forall i w, st (on_blur i w) = st w /\ timers (on_blur i w) = timers w) /\
  (forall i input d,
     let d' := (validateField i input d).2 in
     let key := in_id input ++ js "Error" in
     (validateField i input d).1 = (validity input).1 /\
     (is_Some (texts d !! key) -> texts d' !! key = Some (validity input).2) /\
     (texts d !! key = None -> texts d' !! key = None) /\
     (inputs d !! i = Some input ->
      exists x,
        inputs d' !! i = Some x /\ unmark x = unmark input /\
        in_invalid x = negb (validity input).1 /\
        in_valid x = (validity input).1 && negb (is_empty (trim (in_value input)))) /\
     rest_of_dom d' = rest_of_dom d /\
     (forall j, j <> i -> inputs d' !! j = inputs d !! j) /\
     (forall k, k <> key -> texts d' !! k = texts d !! k)).
Proof.
  split; [|split; [|split]].
  - apply validity_attributes.
  - intros i j a b d d' Ha Hv. rewrite !validateField_eq. cbn.
    by rewrite (validity_attributes a b Ha Hv).
  - intros i w. unfold on_blur. destruct (inputs (dom w) !! i) as [x|]; [|done].
    by destruct (in_form_input x).
  - intros i input d d' key. subst d' key. rewrite validateField_eq. cbn [fst snd].
    split; [reflexivity|]. split; [|split; [|split; [|split; [|split]]]].
    + intros [old Hold]. unfold update_ui. rewrite Hold.
      cbn [texts set_inputs set_texts]. by rewrite lookup_insert_eq.
    + intros Hnone. unfold update_ui. rewrite Hnone. by cbn [texts set_inputs].
    + intros Hi. rewrite update_ui_inputs.
      exists (mark (validity input).1 input).
      split; [apply list_lookup_insert_eq; by apply lookup_lt_Some in Hi|].
      split; [apply unmark_mark|].
      unfold mark. cbv zeta.
      destruct (validity input).1; destruct (is_empty (trim (in_value input)));
        split; reflexivity.
    + apply update_ui_rest.
    + intros j Hj. rewrite update_ui_inputs. by apply list_lookup_insert_ne.
    + apply update_ui_texts.
Qed.

Lemma C7_validation_witness :
  validity (field None "entName" "text" "J0hn" true None)
  = validity (set_marks true false (field (Some CarrierForm) "entName" "text" "J0hn" true None)).
Proof.
  apply (proj1 C7_validation_deterministic_and_framed); reflexivity.
Defined.

(** The loop over the required fields. *)
Lemma validate_step_eq acc d p :
  validate_step (acc, d) p
  = (if negb (validity p.2).1 then false else acc,
     update_ui p.1 p.2 (validity p.2).1 (validity p.2).2 d).
Proof. unfold validate_step. by rewrite validateField_eq. Qed.

Lemma required_inputs_lookup f d p : p ∈ required_inputs f d -> inputs d !! p.1 = Some p.2.
Proof.
  unfold required_inputs. intros H. apply list_elem_of_filter in H as [_ H].
  apply elem_of_lookup_imap in H as (i & y & -> & H). done.
Qed.

Lemma validate_loop d0 ps : forall acc d,
  Forall (fun p => inputs d0 !! p.1 = Some p.2) ps ->
  unmark <$> inputs d = unmark <$> inputs d0 ->
  (foldl validate_step (acc, d) ps).1 = acc && forallb (fun p => (validity p.2).1) ps /\
  unmark <$> inputs (foldl validate_step (acc, d) ps).2 = unmark <$> inputs d0 /\
  rest_of_dom (foldl validate_step (acc, d) ps).2 = rest_of_dom d.
Proof.
  induction ps as [|p ps IH]; intros acc d Hps Hd; cbn [foldl forallb].
  - by rewrite andb_true_r.
  - inversion Hps as [|? ? Hp Hps']; subst.
    rewrite validate_step_eq.
    assert (Hy : exists y, inputs d !! p.1 = Some y /\ unmark y = unmark p.2).
    { assert (H : (unmark <$> inputs d) !! p.1 = Some (unmark p.2))
        by (by rewrite Hd, list_lookup_fmap, Hp).
      rewrite list_lookup_fmap in H. destruct (inputs d !! p.1) as [y|]; [|done].
      exists y. split; [done|]. cbn in H. congruence. }
    destruct Hy as (y & Hy1 & Hy2).
    edestruct (IH (if negb (validity p.2).1 then false else acc)
                 (update_ui p.1 p.2 (validity p.2).1 (validity p.2).2 d)) as (H1 & H2 & H3).
    { done. }
    { rewrite <- Hd. by apply (update_ui_unmark _ _ y). }
    rewrite H1, H2, H3, update_ui_rest. split; [|done].
    destruct (validity p.2).1, acc; reflexivity.
Qed.

Lemma validate_all_spec f d :
  (validate_all f d).1 = forallb (fun p => (validity p.2).1) (required_inputs f d) /\
  unmark <$> inputs (validate_all f d).2 = unmark <$> inputs d /\
  rest_of_dom (validate_all f d).2 = rest_of_dom d.
Proof.
  unfold validate_all. apply (validate_loop d); [|done].
  apply Forall_forall. intros p Hp. by apply (required_inputs_lookup f).
Qed.

Lemma validate_all_true f d : all_valid f d -> (validate_all f d).1 = true.
Proof.
  intros H. rewrite (proj1 (validate_all_spec f d)). apply forallb_forall.
  intros p Hp. apply H. by apply list_elem_of_In.
Qed.

Lemma validate_all_false f d p :
  p ∈ required_inputs f d -> (validity p.2).1 = false -> (validate_all f d).1 = false.
Proof.
  intros Hp Hv. rewrite (proj1 (validate_all_spec f d)). apply not_true_is_false.
  intros H. apply (proj1 (forallb_forall _ _)) with (x := p) in H; [congruence|].
  by apply list_elem_of_In.
Qed.

(** What the loop leaves on each field it validated. *)
Lemma validate_loop_marks d0 ps : forall acc d,
  Forall (fun p => inputs d0 !! p.1 = Some p.2) ps ->
  unmark <$> inputs d = unmark <$> inputs d0 ->
  forall p, p ∈ ps ->
    inputs (foldl validate_step (acc, d) ps).2 !! p.1 = Some (mark (validity p.2).1 p.2).
Proof.
  induction ps as [|q ps IH] using rev_ind; intros acc d Hps Hd p Hp.
  { by apply elem_of_nil in Hp. }
  apply Forall_app in Hps as [Hps Hq]. apply Forall_inv in Hq. cbn beta in Hq.
  destruct (validate_loop d0 ps acc d Hps Hd) as (_ & Hin & _).
  specialize (IH acc d Hps Hd).
  rewrite foldl_snoc. destruct (foldl validate_step (acc, d) ps) as [acc' d'].
  cbn [fst snd] in *. rewrite validate_step_eq. cbn [snd]. rewrite update_ui_inputs.
  assert (Hlen : length (inputs d') = length (inputs d0)).
  { apply (f_equal length) in Hin. by rewrite !length_fmap in Hin. }
  destruct (decide (p.1 = q.1)) as [Heq|Hne].
  - assert (Hpq : p.2 = q.2).
    { apply elem_of_app in Hp as [Hp|Hp].
      - apply (proj1 (Forall_forall _ _) Hps) in Hp. cbn beta in Hp.
        rewrite Heq, Hq in Hp. by injection Hp.
      - apply list_elem_of_singleton in Hp. by subst. }
    rewrite Heq, Hpq. apply list_lookup_insert_eq.
    rewrite Hlen. by apply lookup_lt_Some in Hq.
  - rewrite list_lookup_insert_ne by done. apply IH.
    apply elem_of_app in Hp as [Hp|Hp]; [done|].
    apply list_elem_of_singleton in Hp. by subst.
Qed.

Lemma update_ui_texts_is_Some i input ok msg d k :
  is_Some (texts (update_ui i input ok msg d) !! k) <-> is_Some (texts d !! k).
Proof.
  unfold update_ui. destruct (texts d !! _) eqn:E; [|done]. cbn.
  rewrite lookup_insert_is_Some. split.
  - intros [Hk|[_ H]]; [|done]. rewrite <- Hk, E. eauto.
  - intros H. destruct (decide (in_id input ++ js "Error" = k)); [by left | by right].
Qed.

Lemma update_ui_texts_eq i input ok msg d old :
  texts d !! (in_id input ++ js "Error") = Some old ->
  texts (update_ui i input ok msg d) !! (in_id input ++ js "Error") = Some msg.
Proof. intros H. unfold update_ui. rewrite H. cbn. apply lookup_insert_eq. Qed.

Lemma validate_loop_texts_is_Some ps k : forall acc d,
  is_Some (texts (foldl validate_step (acc, d) ps).2 !! k) <-> is_Some (texts d !! k).
Proof.
  induction ps as [|q ps IH]; intros acc d; cbn [foldl]; [done|].
  rewrite validate_step_eq, IH. apply update_ui_texts_is_Some.
Qed.

Lemma validate_loop_messages ps : forall acc d p old,
  p ∈ ps ->
  (forall q, q ∈ ps -> in_id q.2 = in_id p.2 -> q.2 = p.2) ->
  texts d !! (in_id p.2 ++ js "Error") = Some old ->
  texts (foldl validate_step (acc, d) ps).2 !! (in_id p.2 ++ js "Error")
  = Some (validity p.2).2.
Proof.
  induction ps as [|q ps IH] using rev_ind; intros acc d p old Hp Hid Hold.
  { by apply elem_of_nil in Hp. }
  rewrite foldl_snoc.
  pose proof (proj2 (validate_loop_texts_is_Some ps (in_id p.2 ++ js "Error") acc d)
                (mk_is_Some _ _ Hold)) as [cur Hcur].
  specialize (IH acc d p old).
  destruct (foldl validate_step (acc, d) ps) as [acc' d']. cbn [fst snd] in *.
  rewrite validate_step_eq. cbn [snd].
  destruct (decide (in_id q.2 = in_id p.2)) as [Heq|Hne].
  - rewrite (Hid q) by (done || apply elem_of_app; right; by apply list_elem_of_singleton).
    by apply (update_ui_texts_eq _ _ _ _ _ cur).
  - rewrite update_ui_texts by (intros H; by apply app_inv_tail in H).
    apply IH; [|by intros; apply Hid; [apply elem_of_app; left|]|done].
    apply elem_of_app in Hp as [Hp|Hp]; [done|].
    apply list_elem_of_singleton in Hp. by subst.
Qed.

Lemma validate_all_marks f d p :
  p ∈ required_inputs f d ->
  inputs (validate_all f d).2 !! p.1 = Some (mark (validity p.2).1 p.2).
Proof.
  intros Hp. unfold validate_all. apply (validate_loop_marks d); [|done|done].
  apply Forall_forall. intros q Hq. by apply (required_inputs_lookup f).
Qed.

Lemma validate_all_messages f d p old :
  p ∈ required_inputs f d ->
  (forall q, q ∈ required_inputs f d -> in_id q.2 = in_id p.2 -> q.2 = p.2) ->
  texts d !! (in_id p.2 ++ js "Error") = Some old ->
  texts (validate_all f d).2 !! (in_id p.2 ++ js "Error") = Some (validity p.2).2.
Proof. intros Hp Hid Hold. unfold validate_all. by apply (validate_loop_messages _ _ _ _ old). Qed.

(** Looking a field up by id sees neither the marks nor the rest of the
    document. *)
Lemma list_find_unmark id (l l' : list Input) :
  unmark <$> l = unmark <$> l' ->
  (fun p => in_value p.2) <$> list_find (fun x => in_id x = id) l
  = (fun p => in_value p.2) <$> list_find (fun x => in_id x = id) l'.
Proof.
  revert l'. induction l as [|x l IH]; intros [|x' l'] H; try done.
  injection H as Hid _ Hv _ _ _ _ _ _ Hl. cbn [list_find].
  rewrite Hid. case_decide; cbn; [by rewrite Hv|].
  specialize (IH l' Hl).
  destruct (list_find _ l) as [[? ?]|], (list_find _ l') as [[? ?]|]; cbn in *; done.
Qed.

Lemma value_of_unmark id d d' :
  unmark <$> inputs d = unmark <$> inputs d' -> value_of id d = value_of id d'.
Proof. intros H. unfold value_of, find_input. by apply list_find_unmark. Qed.

Lemma formData_unmark f d d' :
  unmark <$> inputs d = unmark <$> inputs d' -> formData f d = formData f d'.
Proof.
  intros H. unfold formData.
  destruct f; by rewrite !(fun id => value_of_unmark id d d' H).
Qed.

(** ** Closing a modal *)

Lemma set_modal_active_same m a d : modal_el m d = Some a -> set_modal_active m a d = d.
Proof. destruct d, m; simpl; intros ->; reflexivity. Qed.

Lemma set_body_overflow_same d : body_overflow d = [] -> set_body_overflow [] d = d.
Proof. destruct d; simpl; intros ->; reflexivity. Qed.

Lemma closeModal_closed m w :
  is_closed m w ->
  closeModal m w
  = mkWorld
      (set_events
         (events (st w)
          ++ [event_record (js "modal_closed") {["modal" := VStr (modal_name m)]} (st w)
                (clock w (reads w))])
         (st w))
      (set_body_overflow [] (dom w)) (timers w) (clock w) (S (reads w)) (endTime w).
Proof.
  unfold is_closed, closeModal. intros H. rewrite H.
  cbn [set_dom dom st timers clock reads endTime]. rewrite (set_modal_active_same m false _ H).
  reflexivity.
Qed.

(** C6 as stated does not hold: on the sample page with the carrier modal
    open, closing the enterprise modal, which is closed, releases the
    scroll lock of the page. *)
Lemma C6_close_resets_scroll_lock :
  let w := step CarrierCtaClick (sample_world "Ann" "a@b.co" "1234567890" "a@b.co") in
  is_closed enterprise w /\
  modal_el carrier (dom w) = Some true /\
  body_overflow (dom w) = js "hidden" /\
  body_overflow (dom (closeModal enterprise w)) = [] /\
  ~ close_is_noop_but_event.
Proof.
  intros w. do 4 (split; [vm_compute; reflexivity|]).
  intros H. destruct (H enterprise w eq_refl) as [e He].
  apply (f_equal (fun w => body_overflow (dom w))) in He.
  vm_compute in He. discriminate.
Qed.

(** C6, amended. Closing a modal that is in the page and is closed appends
    exactly one [modal_closed] event for that modal and sets the overflow
    style of the body to the empty string; the leads, the earlier events,
    the session identity, the milestones, the timers and the rest of the
    document stay as they are, the modal is still closed afterwards, and
    when the overflow style was already empty the document is unchanged. *)
Theorem C6_closing_a_closed_modal m w :
  is_closed m w ->
  exists e,
    closeModal m w
    = mkWorld (set_events (events (st w) ++ [e]) (st w)) (set_body_overflow [] (dom w))
        (timers w) (clock w) (S (reads w)) (endTime w) /\
    e !! "event" = Some (VStr (js "modal_closed")) /\
    e !! "modal" = Some (VStr (modal_name m)) /\
    leads (st (closeModal m w)) = leads (st w) /\
    is_closed m (closeModal m w) /\
    (body_overflow (dom w) = [] -> dom (closeModal m w) = dom w).
Proof.
  intros H. eexists. split; [by apply closeModal_closed|].
  rewrite (closeModal_closed m w H). cbn [st dom leads set_events].
  split; [by apply event_record_name|].
  split; [apply event_record_lookup_data; by simplify_map_eq|].
  split; [done|]. split.
  - unfold is_closed in *. by destruct m.
  - apply set_body_overflow_same.
Qed.

Lemma C6_closing_witness :
  exists e,
    closeModal choice (sample_world "Ann" "a@b.co" "1234567890" "a@b.co")
    = mkWorld
        (set_events (events (st (sample_world "Ann" "a@b.co" "1234567890" "a@b.co")) ++ [e])
           (st (sample_world "Ann" "a@b.co" "1234567890" "a@b.co")))
        (set_body_overflow [] (dom (sample_world "Ann" "a@b.co" "1234567890" "a@b.co")))
        (timers (sample_world "Ann" "a@b.co" "1234567890" "a@b.co"))
        (clock (sample_world "Ann" "a@b.co" "1234567890" "a@b.co"))
        (S (reads (sample_world "Ann" "a@b.co" "1234567890" "a@b.co")))
        (endTime (sample_world "Ann" "a@b.co" "1234567890" "a@b.co")) /\
    e !! "event" = Some (VStr (js "modal_closed")).
Proof.
  destruct (C6_closing_a_closed_modal choice
              (sample_world "Ann" "a@b.co" "1234567890" "a@b.co"))
    as (e & H1 & H2 & _).
  - reflexivity.
  - exists e. split; assumption.
Defined.

(** ** The submission flows *)

Lemma on_submit_blocked f w :
  (validate_all f (dom w)).1 = false ->
  on_submit f w
  = showToast (js "Please fill in all required fields correctly")
      (set_dom (validate_all f (dom w)).2 w).
Proof.
  unfold on_submit. destruct (validate_all f (dom w)) as [ok d]. cbn [fst snd].
  by intros ->.
Qed.

Lemma on_submit_passes f w data :
  all_valid f (dom w) -> formData f (dom w) = Some data ->
  let d1 := (validate_all f (dom w)).2 in
  on_submit f w
  = setTimeout (complete_task f data)
      (set_dom
         (set_form_ui f
            (mkFormUi true true (form_submitted (form_ui f d1)) (success_show (form_ui f d1)))
            d1) w).
Proof.
  intros Hv Hd d1. subst d1.
  pose proof (validate_all_true f (dom w) Hv) as Hok.
  destruct (validate_all_spec f (dom w)) as (_ & Hin & _).
  unfold on_submit. destruct (validate_all f (dom w)) as [ok d]. cbn [fst snd] in *.
  subst ok. cbn [negb dom set_dom].
  rewrite (formData_unmark f _ (dom w)); [by rewrite Hd|].
  rewrite <- Hin. by destruct f.
Qed.

Lemma fire_setTimeout k t w :
  k = length (timers w) -> fire k (setTimeout t w) = run_task t w.
Proof.
  intros ->. destruct w as [s d l c r e]. unfold fire, setTimeout. cbn [timers].
  rewrite list_lookup_middle by done.
  unfold set_timers. cbn [st dom timers clock reads endTime].
  by rewrite delete_middle, app_nil_r.
Qed.

Lemma closeModal_st m w :
  st (closeModal m w)
  = match modal_el m (dom w) with
    | Some _ =>
        set_events
          (events (st w)
           ++ [event_record (js "modal_closed") {["modal" := VStr (modal_name m)]} (st w)
                 (clock w (reads w))])
          (st w)
    | None => st w
    end /\
  timers (closeModal m w) = timers w.
Proof. unfold closeModal. by destruct (modal_el m (dom w)). Qed.

Lemma submit_complete_unfold f data w :
  let s' := set_leads (leads (st w) ++ [mkLead (form_lead_type f) (VDate (clock w (reads w))) data])
              (st w) in
  exists w',
    submit_complete f data w = setTimeout (reset_task f) w' /\
    timers w' = timers w /\
    st w' = set_events
              (events s'
               ++ [event_record (js "form_submitted") (form_event_data f s') s'
                     (clock w (S (reads w)))]) s' /\
    modal_el (form_modal f) (dom w') = modal_el (form_modal f) (dom w).
Proof.
  intros s'. eexists. split; [reflexivity|]. by destruct f.
Qed.

Lemma submit_reset_st f w :
  st (submit_reset f w) = st (closeModal (form_modal f) w) /\
  timers (submit_reset f w) = timers (closeModal (form_modal f) w).
Proof. split; reflexivity. Qed.

Lemma run_complete_task f data : run_task (complete_task f data) = submit_complete f data.
Proof. by destruct f. Qed.

Lemma run_reset_task f : run_task (reset_task f) = submit_reset f.
Proof. by destruct f. Qed.

Lemma modal_closed_not_submitted m s t :
  event_named (js "form_submitted")
    (event_record (js "modal_closed") {["modal" := VStr (modal_name m)]} s t) = false.
Proof.
  unfold event_named. rewrite event_record_name by done.
  by apply bool_decide_eq_false.
Qed.

Lemma form_event_data_lookup f s :
  form_event_data f s !! "event" = None /\
  form_event_data f s !! "formType" = Some (VStr (form_lead_type f)).
Proof. destruct f; split; by simplify_map_eq. Qed.

(** A submission that passes validation, followed by its two callbacks. *)
Lemma submission_flow f w data :
  all_valid f (dom w) -> formData f (dom w) = Some data ->
  let k := length (timers w) in
  let w1 := step (Submit f) w in
  let w2 := step (TimerFires k) w1 in
  let w3 := step (TimerFires k) w2 in
  st w1 = st w /\
  timers w1 = timers w ++ [complete_task f data] /\
  exists t e closing,
    leads (st w3) = leads (st w) ++ [mkLead (form_lead_type f) (VDate t) data] /\
    events (st w3) = events (st w) ++ e :: closing /\
    e !! "event" = Some (VStr (js "form_submitted")) /\
    e !! "formType" = Some (VStr (form_lead_type f)) /\
    count_events (event_named (js "form_submitted")) (e :: closing) = 1%nat /\
    timers w3 = timers w.
Proof.
  intros Hv Hd k w1 w2 w3. subst k w1 w2 w3. cbn [step].
  rewrite (on_submit_passes f w data Hv Hd).
  split; [done|]. split; [done|].
  rewrite fire_setTimeout by reflexivity. rewrite run_complete_task.
  match goal with |- context [submit_complete f data ?w0] =>
    destruct (submit_complete_unfold f data w0) as (w' & -> & Ht & Hs & Hm)
  end.
  cbn [st dom timers clock reads set_dom] in Ht, Hs, Hm.
  rewrite fire_setTimeout by (by rewrite Ht). rewrite run_reset_task.
  destruct (submit_reset_st f w') as [-> ->].
  destruct (closeModal_st (form_modal f) w') as [-> ->]. rewrite Ht, Hs.
  cbn [events leads set_events set_leads].
  match type of Hs with context [form_event_data f ?s'] =>
    destruct (form_event_data_lookup f s') as [He1 He2]
  end.
  exists (clock w (reads w)). eexists.
  destruct (modal_el (form_modal f) (dom w')).
  - eexists [_]. cbn [events leads set_events set_leads].
    split; [reflexivity|]. split; [by rewrite <- app_assoc|].
    split; [by apply event_record_name|].
    split; [by apply event_record_lookup_data|].
    split; [|done].
    cbn [count_events]. rewrite modal_closed_not_submitted.
    unfold event_named. rewrite event_record_name by done.
    by rewrite bool_decide_eq_true_2.
  - exists []. cbn [events leads set_events set_leads].
    split; [reflexivity|]. split; [reflexivity|].
    split; [by apply event_record_name|].
    split; [by apply event_record_lookup_data|].
    split; [|done].
    cbn [count_events]. unfold event_named. rewrite event_record_name by done.
    by rewrite bool_decide_eq_true_2.
Qed.

Lemma all_valid_forallb f d :
  forallb (fun p => (validity p.2).1) (required_inputs f d) = true -> all_valid f d.
Proof.
  intros H p Hp. apply (proj1 (forallb_forall _ _) H). by apply list_elem_of_In.
Qed.

Lemma enterprise_formData_fields d data :
  formData EnterpriseForm d = Some data ->
  data !! "name" = value_of "entName" d /\
  data !! "email" = value_of "entEmail" d /\
  data !! "company" = value_of "entCompany" d /\
  data !! "phone" = value_of "entPhone" d /\
  data !! "fleetSize" = value_of "entFleetSize" d /\
  data !! "message" = value_of "entMessage" d.
Proof.
  unfold formData.
  destruct (value_of "entName" d) as [v1|]; [|done].
  destruct (value_of "entEmail" d) as [v2|]; [|done].
  destruct (value_of "entCompany" d) as [v3|]; [|done].
  destruct (value_of "entPhone" d) as [v4|]; [|done].
  destruct (value_of "entFleetSize" d) as [v5|]; [|done].
  destruct (value_of "entMessage" d) as [v6|]; [|done].
  cbn [mbind option_bind]. intros [= <-]. repeat split; by simplify_map_eq.
Qed.

(** C1. When every required field of the enterprise form passes validation
    (and the page has the six fields that the handler reads), the
    submission followed by its two callbacks appends exactly one lead, of
    type [enterprise], holding the values of the fields at the time of the
    submission, and among the events it appends exactly one is a
    [form_submitted] event, the first, with form type [enterprise]. *)
Theorem C1_enterprise_submission_records_one_lead w data :
  all_valid EnterpriseForm (dom w) ->
  formData EnterpriseForm (dom w) = Some data ->
  let k := length (timers w) in
  let w' := run [Submit EnterpriseForm; TimerFires k; TimerFires k] w in
  (data !! "name" = value_of "entName" (dom w) /\
   data !! "email" = value_of "entEmail" (dom w) /\
   data !! "company" = value_of "entCompany" (dom w) /\
   data !! "phone" = value_of "entPhone" (dom w) /\
   data !! "fleetSize" = value_of "entFleetSize" (dom w) /\
   data !! "message" = value_of "entMessage" (dom w)) /\
  exists t e closing,
    leads (st w') = leads (st w) ++ [mkLead (js "enterprise") (VDate t) data] /\
    events (st w') = events (st w) ++ e :: closing /\
    e !! "event" = Some (VStr (js "form_submitted")) /\
    e !! "formType" = Some (VStr (js "enterprise")) /\
    count_events (event_named (js "form_submitted")) (e :: closing) = 1%nat.
Proof.
  intros Hv Hd k w'. split; [by apply enterprise_formData_fields|].
  destruct (submission_flow EnterpriseForm w data Hv Hd)
    as (_ & _ & t & e & closing & H1 & H2 & H3 & H4 & H5 & _).
  exists t, e, closing. done.
Qed.

Lemma C1_enterprise_submission_witness :
  exists t,
    leads (st (run [Submit EnterpriseForm; TimerFires 0; TimerFires 0]
                 (sample_world "Ann Lee" "ann@acme.co" "1234567890" "ann@acme.co")))
    = [] ++ [mkLead (js "enterprise") (VDate t) (sample_enterprise_data "Ann Lee" "ann@acme.co")].
Proof.
  destruct (C1_enterprise_submission_records_one_lead
              (sample_world "Ann Lee" "ann@acme.co" "1234567890" "ann@acme.co")
              (sample_enterprise_data "Ann Lee" "ann@acme.co"))
    as (_ & t & e & closing & H & _).
  - apply all_valid_forallb. vm_compute. reflexivity.
  - vm_compute. reflexivity.
  - exists t. exact H.
Defined.

(** ** A submission that validation stops *)

Lemma on_submit_email_blocked w i x :
  find_input (js "quickEmail") (dom w) = Some (i, x) ->
  test emailRegex (trim (in_value x)) = false ->
  on_submit_email w = showToast (js "Please enter a valid email") w.
Proof. intros Hf Ht. unfold on_submit_email. by rewrite Hf, Ht. Qed.

Lemma on_submit_email_passes w i x :
  find_input (js "quickEmail") (dom w) = Some (i, x) ->
  test emailRegex (trim (in_value x)) = true ->
  leads (st (on_submit_email w))
  = leads (st w) ++ [mkLead (js "email") (VDate (clock w (reads w))) {["email" := trim (in_value x)]}].
Proof. intros Hf Ht. unfold on_submit_email. by rewrite Hf, Ht. Qed.

(** C5 as stated does not hold: on the sample page with [a@b] in the
    quick email field, the stopped submission of the email capture form
    shows the toast, which was hidden, and marks no field. *)
Lemma C5_failure_shows_toast :
  let w := sample_world "Ann" "a@b.co" "1234567890" "a@b" in
  validation_fails SubmitEmail w /\
  toast_show (dom w) = false /\
  toast_show (dom (step SubmitEmail w)) = true /\
  inputs (dom (step SubmitEmail w)) = inputs (dom w) /\
  texts (dom (step SubmitEmail w)) = texts (dom w) /\
  ~ failure_is_inline_only.
Proof.
  intros w.
  assert (Hg : validation_fails SubmitEmail w).
  { exists 15%nat, (field None "quickEmail" "email" "a@b" false None).
    split; vm_compute; reflexivity. }
  split; [exact Hg|]. do 4 (split; [vm_compute; reflexivity|]).
  intros H. destruct (H SubmitEmail w Hg) as [_ Hd].
  vm_compute in Hd. discriminate.
Qed.

(** C5, amended. A submission that the validation stops leaves the
    session state as it is (no lead, no event), schedules nothing but the
    hiding of the toast, and leaves the submit button and every field
    value as they are; it shows the toast, and on the enterprise and
    carrier forms every required field also gets the mark of its verdict
    and its error element the message, while on the email capture form the
    toast is the only change. Whatever runs next, a submission whose
    required fields are then valid goes through. *)
Theorem C5_stopped_submission a w :
  validation_fails a w ->
  let w' := step a w in
  st w' = st w /\
  timers w' = timers w ++ [ToastHide] /\
  toast_show (dom w') = true /\
  toast_text (dom w')
  = match a with
    | SubmitEmail => js "Please enter a valid email"
    | _ => js "Please fill in all required fields correctly"
    end /\
  unmark <$> inputs (dom w') = unmark <$> inputs (dom w) /\
  rest_of_dom (set_toast (toast_text (dom w)) (toast_show (dom w)) (dom w'))
    = rest_of_dom (dom w) /\
  (a = SubmitEmail -> dom w' = set_toast (js "Please enter a valid email") true (dom w)) /\
  (forall f p,
     a = Submit f -> p ∈ required_inputs f (dom w) ->
     inputs (dom w') !! p.1 = Some (mark (validity p.2).1 p.2) /\
     forall old,
       (forall q, q ∈ required_inputs f (dom w) -> in_id q.2 = in_id p.2 -> q.2 = p.2) ->
       texts (dom w) !! (in_id p.2 ++ js "Error") = Some old ->
       texts (dom w') !! (in_id p.2 ++ js "Error") = Some (validity p.2).2) /\
  forall l,
    let w2 := run l w' in
    (forall f data,
       all_valid f (dom w2) -> formData f (dom w2) = Some data ->
       timers (step (Submit f) w2) = timers w2 ++ [complete_task f data]) /\
    (forall i x,
       find_input (js "quickEmail") (dom w2) = Some (i, x) ->
       test emailRegex (trim (in_value x)) = true ->
       exists t,
         leads (st (step SubmitEmail w2))
         = leads (st w2) ++ [mkLead (js "email") (VDate t) {["email" := trim (in_value x)]}]).
Proof.
  intros Hg w'.
  assert (Hrec : forall l,
    let w2 := run l w' in
    (forall f data,
       all_valid f (dom w2) -> formData f (dom w2) = Some data ->
       timers (step (Submit f) w2) = timers w2 ++ [complete_task f data]) /\
    (forall i x,
       find_input (js "quickEmail") (dom w2) = Some (i, x) ->
       test emailRegex (trim (in_value x)) = true ->
       exists t,
         leads (st (step SubmitEmail w2))
         = leads (st w2) ++ [mkLead (js "email") (VDate t) {["email" := trim (in_value x)]}])).
  { intros l w2. split.
    - intros f data Hv Hd. cbn [step]. by rewrite (on_submit_passes f w2 data Hv Hd).
    - intros i x Hf Ht. eexists. cbn [step]. by apply (on_submit_email_passes w2 i x). }
  subst w'. destruct a; try done; cbn [step] in *.
  - destruct Hg as (p & Hp & Hv).
    rewrite (on_submit_blocked f w (validate_all_false f (dom w) p Hp Hv)) in *.
    destruct (validate_all_spec f (dom w)) as (_ & Hin & Hrest).
    split; [done|]. split; [done|]. split; [done|]. split; [done|]. split; [done|].
    split; [|split; [done|split; [|exact Hrec]]].
    + unfold rest_of_dom in *. cbn. injection Hrest as ? ? ? ? ? ? ? ? ? ? ? ?. congruence.
    + intros f' q [= <-] Hq. split.
      * by apply validate_all_marks.
      * intros old Hid Hold. by apply (validate_all_messages _ _ _ old).
  - destruct Hg as (i & x & Hf & Ht).
    rewrite (on_submit_email_blocked w i x Hf Ht) in *.
    split; [done|]. split; [done|]. split; [done|]. split; [done|]. split; [done|].
    split; [done|]. split; [done|]. split; [done|exact Hrec].
Qed.

Lemma C5_stopped_submission_witness :
  leads (st (step (Submit EnterpriseForm)
               (sample_world "J0hn" "ann@acme.co" "1234567890" "ann@acme.co")))
  = leads (st (sample_world "J0hn" "ann@acme.co" "1234567890" "ann@acme.co")) /\
  timers (step (Submit EnterpriseForm)
            (sample_world "J0hn" "ann@acme.co" "1234567890" "ann@acme.co"))
  = [] ++ [ToastHide] /\
  in_invalid <$> inputs (dom (step (Submit EnterpriseForm)
                                (sample_world "J0hn" "ann@acme.co" "1234567890"
                                   "ann@acme.co"))) !! 0%nat
  = Some true.
Proof.
  destruct (C5_stopped_submission (Submit EnterpriseForm)
              (sample_world "J0hn" "ann@acme.co" "1234567890" "ann@acme.co"))
    as (Hs & Ht & _ & _ & _ & _ & _ & Hm & _).
  - exists (0%nat, field (Some EnterpriseForm) "entName" "text" "J0hn" true None).
    split; [|vm_compute; reflexivity].
    apply list_elem_of_In. vm_compute. left. reflexivity.
  - split; [by rewrite Hs|]. split; [exact Ht|].
    destruct (Hm EnterpriseForm
                (0%nat, field (Some EnterpriseForm) "entName" "text" "J0hn" true None)
                eq_refl) as [Hmark _].
    + apply list_elem_of_In. vm_compute. left. reflexivity.
    + cbn [fst snd] in Hmark. rewrite Hmark. reflexivity.
Defined.

(** The sample page: a stopped submission, a corrected field, a second
    submission and its callbacks. *)
Example recovered_submission :
  let w := run [Submit EnterpriseForm; InputEdit 0 (js "John"); Submit EnterpriseForm;
                TimerFires 1; TimerFires 1]
             (sample_world "J0hn" "ann@acme.co" "1234567890" "ann@acme.co") in
  lead_type <$> leads (st w) = [js "enterprise"] /\
  (fun e => e !! "event") <$> events (st w)
  = [Some (VStr (js "page_view")); Some (VStr (js "form_submitted"));
     Some (VStr (js "modal_closed"))].
Proof. by vm_compute. Qed.

(** * Further properties of the script *)

(** ** What every listener preserves, with the call sites in view

    As above, but the four ways of updating the state are taken as the
    listeners use them: an event that goes with no lead and overrides no
    context key, a lead followed by its event, and a listed milestone
    entering its set together with its event. *)

Section LogPreservation.
Variable R : State -> Prop.

Hypothesis R_event : forall s name data t,
  milestone_name name = false -> lead_event_name name = false -> safe_data s data ->
  R s -> R (set_events (events s ++ [event_record name data s t]) s).

Hypothesis R_lead : forall s lead name data t,
  lead_event_name name = true -> safe_data s data ->
  lead_type lead ∈ lead_types -> (exists t', lead_timestamp lead = VDate t') ->
  R s ->
  let s' := set_leads (leads s ++ [lead]) s in
  R (set_events (events s' ++ [event_record name data s' t]) s').

Hypothesis R_scroll : forall s m t,
  m ∈ scroll_milestones -> m ∉ scrollDepths s -> R s ->
  let s' := set_scrollDepths ({[m]} ∪ scrollDepths s) s in
  R (set_events
       (events s' ++ [event_record (js "scroll_depth") {["depth" := VNum m]} s' t]) s').

Hypothesis R_time : forall s m t,
  m ∈ time_milestones -> m ∉ timeMilestones s -> R s ->
  let s' := set_timeMilestones ({[m]} ∪ timeMilestones s) s in
  R (set_events
       (events s' ++ [event_record (js "time_on_page") {["seconds" := VNum m]} s' t]) s').

Lemma safe_data_empty s : safe_data s ∅.
Proof. repeat split; auto. Qed.

Lemma safe_data_singleton s k v :
  k <> "event" -> k <> "timestamp" -> k <> "sessionId" -> k <> "variant" ->
  safe_data s {[k := v]}.
Proof.
  intros. unfold safe_data. rewrite !lookup_singleton_ne by done. auto.
Qed.

Lemma safe_data_variant s k v :
  k <> "event" -> k <> "timestamp" -> k <> "sessionId" -> k <> "variant" ->
  safe_data s (<["variant" := VStr (variant_name (variant s))]> (<[k := v]> ∅)).
Proof.
  intros. unfold safe_data. repeat split; [by simplify_map_eq..|].
  right. by simplify_map_eq.
Qed.

Lemma R_trackEvent name data w :
  milestone_name name = false -> lead_event_name name = false -> safe_data (st w) data ->
  R (st w) -> R (st (trackEvent name data w)).
Proof. intros. by apply R_event. Qed.

Lemma R_closeModal m w : R (st w) -> R (st (closeModal m w)).
Proof.
  intros H. unfold closeModal. destruct (modal_el m (dom w)); [|done].
  apply R_trackEvent; [done | done | by apply safe_data_singleton | done].
Qed.

Lemma R_openModal m w : R (st w) -> R (st (openModal m w)).
Proof.
  intros H. unfold openModal. destruct (modal_el m (dom w)); [|done].
  apply R_trackEvent; [done | done | by apply safe_data_singleton | done].
Qed.

Lemma R_scroll_milestone p w m :
  m ∈ scroll_milestones -> R (st w) -> R (st (scroll_milestone p w m)).
Proof.
  intros Hm H. unfold scroll_milestone.
  destruct (num_ge p m); simpl; [|done]. case_bool_decide; simpl; [done|].
  by apply R_scroll.
Qed.

Lemma R_time_milestone t w m :
  m ∈ time_milestones -> R (st w) -> R (st (time_milestone t w m)).
Proof.
  intros Hm H. unfold time_milestone.
  destruct (m <=? t); simpl; [|done]. case_bool_decide; simpl; [done|].
  by apply R_time.
Qed.

Lemma R_on_scroll p w : R (st w) -> R (st (on_scroll p w)).
Proof.
  intros H. unfold on_scroll. cbn [foldl].
  repeat (apply R_scroll_milestone; [apply list_elem_of_In; cbn; tauto|]). done.
Qed.

Lemma R_on_interval w : R (st w) -> R (st (on_interval w)).
Proof.
  intros H. unfold on_interval. cbn [foldl now].
  repeat (apply R_time_milestone; [apply list_elem_of_In; cbn; tauto|]). done.
Qed.

Lemma R_on_keydown key w : R (st w) -> R (st (on_keydown key w)).
Proof.
  intros H. unfold on_keydown. destruct (jsstring_eqb _ _); [|done].
  cbn [foldl modal_keys]. by repeat apply R_closeModal.
Qed.

Lemma R_on_submit f w : R (st w) -> R (st (on_submit f w)).
Proof.
  intros H. unfold on_submit. destruct (validate_all f (dom w)) as [ok d].
  destruct ok; cbn [negb]; [|done].
  match goal with |- context [formData f ?d] => destruct (formData f d) end; done.
Qed.

Lemma R_submit_complete f data w : R (st w) -> R (st (submit_complete f data w)).
Proof.
  intros H.
  change (R (let s' := set_leads (leads (st w)
                        ++ [mkLead (form_lead_type f) (VDate (clock w (reads w))) data]) (st w) in
             set_events (events s'
               ++ [event_record (js "form_submitted") (form_event_data f s') s'
                     (clock w (S (reads w)))]) s')).
  apply R_lead; [done | | | by eexists | done].
  - destruct f; [|by apply safe_data_singleton].
    by refine (safe_data_variant (st w) "formType" _ _ _ _ _).
  - apply list_elem_of_In. destruct f; cbn; tauto.
Qed.

Lemma R_submit_reset f w : R (st w) -> R (st (submit_reset f w)).
Proof. intros H. by apply (R_closeModal (form_modal f)) in H. Qed.

Lemma R_on_submit_email w : R (st w) -> R (st (on_submit_email w)).
Proof.
  intros H. unfold on_submit_email.
  destruct (find_input _ _) as [[i x]|]; [|done].
  destruct (negb _); [done|].
  change (R (let s' := set_leads (leads (st w)
                        ++ [mkLead (js "email") (VDate (clock w (reads w)))
                              {["email" := trim (in_value x)]}]) (st w) in
             set_events (events s'
               ++ [event_record (js "email_captured") {["email" := VStr (trim (in_value x))]} s'
                     (clock w (S (reads w)))]) s')).
  apply R_lead; [done | by apply safe_data_singleton | | by eexists | done].
  apply list_elem_of_In. cbn. tauto.
Qed.

Lemma R_run_task t w : R (st w) -> R (st (run_task t w)).
Proof.
  intros H. destruct t; cbn [run_task].
  - by apply R_submit_complete.
  - by apply R_submit_reset.
  - by apply R_submit_complete.
  - by apply R_submit_reset.
  - unfold email_reset. cbn. by destruct (inputs (dom w) !! emailInput).
  - done.
Qed.

Lemma R_fire k w : R (st w) -> R (st (fire k w)).
Proof.
  intros H. unfold fire. destruct (timers w !! k); [|done]. by apply R_run_task.
Qed.

Lemma R_on_blur i w : R (st w) -> R (st (on_blur i w)).
Proof.
  intros H. unfold on_blur. destruct (inputs (dom w) !! i) as [x|]; [|done].
  by destruct (in_form_input x).
Qed.

Lemma R_on_input i v w : R (st w) -> R (st (on_input i v w)).
Proof.
  intros H. unfold on_input. destruct (inputs (dom w) !! i) as [x|]; [|done].
  cbv zeta. by destruct (_ && _).
Qed.

Lemma R_updateCountdown w : R (st w) -> R (st (updateCountdown w)).
Proof. intros H. unfold updateCountdown. by destruct (countdownEl (dom w)). Qed.

Lemma R_cta button w :
  R (st w) -> R (st (cta_clicked button w)).
Proof.
  intros H. unfold cta_clicked.
  apply R_trackEvent; [done | done | by apply safe_data_singleton | done].
Qed.

(** Every listener preserves the property. *)
Lemma R_step a w : R (st w) -> R (st (step a w)).
Proof.
  intros H. destruct a; cbn [step].
  - apply R_trackEvent; [done | done | apply safe_data_empty | done].
  - apply R_trackEvent; [done | done | by apply safe_data_singleton | done].
  - by apply R_on_scroll.
  - by apply R_on_interval.
  - destruct targetFound; [|done].
    apply R_trackEvent; [done | done | by apply safe_data_singleton | done].
  - by apply R_closeModal.
  - by apply R_closeModal.
  - by apply R_on_keydown.
  - apply R_openModal. by apply R_cta.
  - apply R_openModal.
    apply R_trackEvent; [done | done | by apply safe_data_variant | done].
  - apply R_openModal. by apply R_cta.
  - apply R_openModal. by apply R_closeModal.
  - apply R_openModal. by apply R_closeModal.
  - apply R_openModal. by apply R_cta.
  - by apply R_on_blur.
  - by apply R_on_input.
  - by apply R_on_submit.
  - by apply R_on_submit_email.
  - by apply R_fire.
  - apply R_trackEvent; [done | done | apply safe_data_empty | done].
  - apply R_trackEvent; [done | done | apply safe_data_empty | done].
  - apply R_trackEvent; [done | done | by apply safe_data_singleton | done].
  - apply R_trackEvent; [done | done | by apply safe_data_singleton | done].
  - cbv zeta. destruct (chat_open _); [|done].
    apply R_trackEvent; [done | done | apply safe_data_empty | done].
  - done.
  - destruct isChatAction; [|done].
    apply R_trackEvent; [done | done | by apply safe_data_singleton | done].
  - destruct (is_empty _); [done|].
    apply R_trackEvent; [done | done | apply safe_data_empty | done].
  - apply R_cta. by apply R_openModal.
  - apply R_cta. by apply R_openModal.
  - by apply R_updateCountdown.
Qed.

Lemma R_run l : forall w, R (st w) -> R (st (run l w)).
Proof.
  induction l as [|a l IH]; intros w H; [done|].
  apply IH. by apply R_step.
Qed.

Lemma R_init suffix draw clk d :
  (forall s, events s = [] -> leads s = [] -> scrollDepths s = ∅ -> timeMilestones s = ∅ -> R s) ->
  R (st (init suffix draw clk d)).
Proof.
  intros H0. unfold init. cbv zeta.
  match goal with |- context [trackEvent ?n ?dt ?w0] =>
    assert (H : R (st (trackEvent n dt w0)))
      by (apply R_trackEvent; [done | done | apply safe_data_empty | by apply H0])
  end.
  destruct (countdownEl _); [|done].
  cbn [now]. by apply R_updateCountdown.
Qed.
End LogPreservation.

(** ** The log of a session *)

Lemma event_record_tagged name data s t :
  safe_data s data -> tagged s (event_record name data s t).
Proof.
  intros (He & Ht & Hs & Hv). unfold tagged, event_record, spread.
  split; [|split; [|split]].
  - rewrite lookup_union_r by done. by simplify_map_eq.
  - destruct Hv as [Hv|Hv].
    + rewrite lookup_union_r by done. by simplify_map_eq.
    + by apply lookup_union_Some_l.
  - exists t. rewrite lookup_union_r by done. by simplify_map_eq.
  - exists name. rewrite lookup_union_r by done. by simplify_map_eq.
Qed.

Lemma event_named_record n name data s t :
  data !! "event" = None ->
  event_named n (event_record name data s t) = jsstring_eqb name n.
Proof.
  intros H. unfold event_named, jsstring_eqb. rewrite event_record_name by done.
  apply bool_decide_ext. split; congruence.
Qed.

Lemma lead_event_name_cases name :
  lead_event_name name = true ->
  (jsstring_eqb name (js "form_submitted") = true /\ jsstring_eqb name (js "email_captured") = false
   \/ jsstring_eqb name (js "form_submitted") = false /\ jsstring_eqb name (js "email_captured") = true)
  /\ jsstring_eqb name (js "scroll_depth") = false
  /\ jsstring_eqb name (js "time_on_page") = false.
Proof.
  unfold lead_event_name, jsstring_eqb. intros H.
  apply orb_true_iff in H as [H|H]; apply bool_decide_eq_true in H; subst; vm_compute; auto.
Qed.

Ltac eval_names :=
  repeat match goal with
  | |- context [jsstring_eqb (js ?a) (js ?b)] =>
      let v := eval vm_compute in (jsstring_eqb (js a) (js b)) in
      change (jsstring_eqb (js a) (js b)) with v
  end.

Lemma log_inv_event s name data t :
  milestone_name name = false -> lead_event_name name = false -> safe_data s data ->
  log_inv s -> log_inv (set_events (events s ++ [event_record name data s t]) s).
Proof.
  intros Hm Hl Hd (H1 & H2 & H3 & H4 & H5 & H6 & H7).
  pose proof Hd as (He & _).
  unfold milestone_name in Hm. apply orb_false_iff in Hm as [Hm1 Hm2].
  unfold lead_event_name in Hl. apply orb_false_iff in Hl as [Hl1 Hl2].
  unfold log_inv. cbn [events leads scrollDepths timeMilestones set_events].
  rewrite !count_events_app. cbn [count_events].
  rewrite !event_named_record by done. rewrite Hm1, Hm2, Hl1, Hl2.
  split; [|repeat split; try done; lia].
  apply Forall_app. split; [exact H1|]. apply Forall_singleton.
  exact (event_record_tagged name data s t Hd).
Qed.

Lemma log_inv_lead s lead name data t :
  lead_event_name name = true -> safe_data s data ->
  lead_type lead ∈ lead_types -> (exists t', lead_timestamp lead = VDate t') ->
  log_inv s ->
  let s' := set_leads (leads s ++ [lead]) s in
  log_inv (set_events (events s' ++ [event_record name data s' t]) s').
Proof.
  intros Hl Hd Hty Hts (H1 & H2 & H3 & H4 & H5 & H6 & H7) s'. subst s'.
  pose proof Hd as (He & _).
  destruct (lead_event_name_cases name Hl) as (Hc & Hm1 & Hm2).
  unfold log_inv. cbn [events leads scrollDepths timeMilestones set_events set_leads].
  rewrite !count_events_app. cbn [count_events].
  rewrite !event_named_record by done. rewrite Hm1, Hm2, length_app. cbn [length].
  split; [|split; [|split; [|repeat split; try done; lia]]].
  - apply Forall_app. split; [exact H1|]. apply Forall_singleton.
    exact (event_record_tagged name data s t Hd).
  - apply Forall_app. split; [done|]. by apply Forall_singleton.
  - destruct Hc as [[-> ->]|[-> ->]]; lia.
Qed.

Lemma log_inv_scroll s m t :
  m ∈ scroll_milestones -> m ∉ scrollDepths s -> log_inv s ->
  let s' := set_scrollDepths ({[m]} ∪ scrollDepths s) s in
  log_inv
    (set_events
       (events s' ++ [event_record (js "scroll_depth") {["depth" := VNum m]} s' t]) s').
Proof.
  intros Hm Hn (H1 & H2 & H3 & H4 & H5 & H6 & H7) s'. subst s'.
  unfold log_inv. cbn [events leads scrollDepths timeMilestones set_events set_scrollDepths].
  rewrite !count_events_app. cbn [count_events].
  rewrite !event_named_record by done.
  split; [|split; [done|split; [|split; [|split; [|split; [|done]]]]]].
  - apply Forall_app. split; [exact H1|]. apply Forall_singleton.
    assert (Hsd : safe_data s {["depth" := VNum m]}) by (by apply safe_data_singleton).
    exact (event_record_tagged (js "scroll_depth") _ s t Hsd).
  - rewrite H3. eval_names. cbv iota. lia.
  - rewrite size_union by (by apply disjoint_singleton_l). rewrite size_singleton, H4.
    eval_names. cbv iota. lia.
  - rewrite H5. eval_names. cbv iota. lia.
  - intros m' Hm'. apply elem_of_union in Hm' as [Hm'|Hm']; [|auto].
    apply elem_of_singleton in Hm'. by subst.
Qed.

Lemma log_inv_time s m t :
  m ∈ time_milestones -> m ∉ timeMilestones s -> log_inv s ->
  let s' := set_timeMilestones ({[m]} ∪ timeMilestones s) s in
  log_inv
    (set_events
       (events s' ++ [event_record (js "time_on_page") {["seconds" := VNum m]} s' t]) s').
Proof.
  intros Hm Hn (H1 & H2 & H3 & H4 & H5 & H6 & H7) s'. subst s'.
  unfold log_inv. cbn [events leads scrollDepths timeMilestones set_events set_timeMilestones].
  rewrite !count_events_app. cbn [count_events].
  rewrite !event_named_record by done.
  split; [|split; [done|split; [|split; [|split; [|split; [done|]]]]]].
  - apply Forall_app. split; [exact H1|]. apply Forall_singleton.
    assert (Hsd : safe_data s {["seconds" := VNum m]}) by (by apply safe_data_singleton).
    exact (event_record_tagged (js "time_on_page") _ s t Hsd).
  - rewrite H3. eval_names. cbv iota. lia.
  - rewrite H4. eval_names. cbv iota. lia.
  - rewrite size_union by (by apply disjoint_singleton_l). rewrite size_singleton, H5.
    eval_names. cbv iota. lia.
  - intros m' Hm'. apply elem_of_union in Hm' as [Hm'|Hm']; [|auto].
    apply elem_of_singleton in Hm'. by subst.
Qed.

Lemma log_inv_reachable suffix draw clk d l :
  log_inv (st (run l (init suffix draw clk d))).
Proof.
  apply R_run; auto using log_inv_event, log_inv_lead, log_inv_scroll, log_inv_time.
  apply R_init; auto using log_inv_event, log_inv_lead, log_inv_scroll, log_inv_time.
  intros s He Hl Hs Ht. unfold log_inv. rewrite He, Hl, Hs, Ht.
  repeat split; try done; intros m Hm; by apply elem_of_empty in Hm.
Qed.

(** X1. Along every sequence of listener invocations after a page load,
    every recorded event carries the id and the variant of the session, an
    instant and a name: no call site of the tracker overrides the session
    context. *)
Theorem X1_every_event_is_tagged suffix draw clk d (l : list Action) :
  let w := run l (init suffix draw clk d) in
  Forall (tagged (st w)) (events (st w)).
Proof. intros w. by destruct (log_inv_reachable suffix draw clk d l) as (H & _). Qed.

(** X2. Along every sequence of listener invocations after a page load,
    there are as many leads as [form_submitted] and [email_captured] events
    together, and every lead has the type [enterprise], [carrier] or
    [email] and an instant. *)
Theorem X2_leads_match_lead_events suffix draw clk d (l : list Action) :
  let w := run l (init suffix draw clk d) in
  length (leads (st w))
  = (count_events (event_named (js "form_submitted")) (events (st w))
     + count_events (event_named (js "email_captured")) (events (st w)))%nat /\
  Forall (fun x => lead_type x ∈ lead_types /\ exists t, lead_timestamp x = VDate t)
    (leads (st w)).
Proof.
  intros w. by destruct (log_inv_reachable suffix draw clk d l) as (_ & H2 & H3 & _).
Qed.

Lemma size_bounded (S : gset Z) (ms : list Z) :
  (forall m, m ∈ S -> m ∈ ms) -> (size S <= length ms)%nat.
Proof.
  intros H. transitivity (size (list_to_set ms : gset Z)).
  - apply subseteq_size. intros m Hm. apply elem_of_list_to_set. auto.
  - clear H. induction ms as [|m ms IH]; cbn [list_to_set length].
    + by rewrite size_empty.
    + rewrite size_union_alt, size_singleton.
      pose proof (subseteq_size (list_to_set ms ∖ {[m]}) (list_to_set ms : gset Z)) as Hs.
      assert (Hsub : list_to_set ms ∖ {[m]} ⊆ (list_to_set ms : gset Z)).
      { intros x Hx. by apply elem_of_difference in Hx as [Hx _]. }
      specialize (Hs Hsub). lia.
Qed.

(** X3. Along every sequence of listener invocations after a page load,
    the milestone sets hold listed milestones only, and a session records
    at most four [scroll_depth] events and at most three [time_on_page]
    events in all. *)
Theorem X3_milestone_events_are_bounded suffix draw clk d (l : list Action) :
  let w := run l (init suffix draw clk d) in
  (forall m, m ∈ scrollDepths (st w) -> m ∈ scroll_milestones) /\
  (forall m, m ∈ timeMilestones (st w) -> m ∈ time_milestones) /\
  (count_events (event_named (js "scroll_depth")) (events (st w)) <= 4)%nat /\
  (count_events (event_named (js "time_on_page")) (events (st w)) <= 3)%nat.
Proof.
  intros w.
  destruct (log_inv_reachable suffix draw clk d l) as (_ & _ & _ & H4 & H5 & H6 & H7).
  fold w in H4, H5, H6, H7. rewrite H4, H5.
  split; [done|]. split; [done|]. split.
  - apply (size_bounded _ scroll_milestones H6).
  - apply (size_bounded _ time_milestones H7).
Qed.

(** X4. Whatever listeners run, the events and the leads recorded so far
    stay where they are: the lists only grow at their ends. *)
Theorem X4_log_is_append_only (l : list Action) (w : World) :
  (exists es, events (st (run l w)) = events (st w) ++ es) /\
  (exists ls, leads (st (run l w)) = leads (st w) ++ ls).
Proof. by destruct (grown_from_run l w) as (_ & He & Hl & _). Qed.

(** ** Milestones reached in one step *)

Lemma scroll_milestone_depths p w a m :
  m ∈ scrollDepths (st (scroll_milestone p w a))
  <-> m ∈ scrollDepths (st w) \/ (m = a /\ num_ge p a = true).
Proof.
  unfold scroll_milestone. destruct (num_ge p a); cbn [andb].
  - case_bool_decide as Ha; cbn [negb].
    + split; [auto|]. intros [H|[-> _]]; done.
    + cbn. rewrite elem_of_union, elem_of_singleton. intuition auto.
  - intuition discriminate.
Qed.

Lemma scroll_fold_depths p ms : forall w m,
  m ∈ scrollDepths (st (foldl (scroll_milestone p) w ms))
  <-> m ∈ scrollDepths (st w) \/ (m ∈ ms /\ num_ge p m = true).
Proof.
  induction ms as [|a ms IH]; intros w m; cbn [foldl].
  - split; [auto|]. intros [H|[H _]]; [done|]. by apply elem_of_nil in H.
  - rewrite IH, scroll_milestone_depths, elem_of_cons.
    intuition (subst; auto).
Qed.

Lemma time_milestone_set t w a m :
  m ∈ timeMilestones (st (time_milestone t w a))
  <-> m ∈ timeMilestones (st w) \/ (m = a /\ a <= t).
Proof.
  unfold time_milestone. destruct (Z.leb_spec a t); cbn [andb].
  - case_bool_decide as Ha; cbn [negb].
    + split; [auto|]. intros [H'|[-> _]]; done.
    + cbn. rewrite elem_of_union, elem_of_singleton. intuition auto.
  - split; [auto|]. intros [H'|[-> H']]; [done|lia].
Qed.

Lemma time_fold_set t ms : forall w m,
  m ∈ timeMilestones (st (foldl (time_milestone t) w ms))
  <-> m ∈ timeMilestones (st w) \/ (m ∈ ms /\ m <= t).
Proof.
  induction ms as [|a ms IH]; intros w m; cbn [foldl].
  - split; [auto|]. intros [H|[H _]]; [done|]. by apply elem_of_nil in H.
  - rewrite IH, time_milestone_set, elem_of_cons.
    intuition (subst; auto).
Qed.

(** X5. One scroll event puts into the set every listed depth that the
    percentage has reached, also several at once, and nothing else; one
    tick of the timer does the same with the listed numbers of seconds that
    have elapsed since the start of the session. *)
Theorem X5_milestones_reached_in_one_step (w : World) (m : Z) :
  (forall p,
     m ∈ scrollDepths (st (step (Scroll p) w))
     <-> m ∈ scrollDepths (st w) \/ (m ∈ scroll_milestones /\ num_ge p m = true)) /\
  (m ∈ timeMilestones (st (step Interval w))
   <-> m ∈ timeMilestones (st w)
       \/ (m ∈ time_milestones /\ m * 1000 <= clock w (reads w) - startTime (st w))).
Proof.
  split.
  - intros p. apply scroll_fold_depths.
  - cbn [step]. unfold on_interval. cbn [now]. rewrite time_fold_set.
    cbn [st timeMilestones startTime].
    assert (Hd : m <= (clock w (reads w) - startTime (st w)) / 1000
                 <-> m * 1000 <= clock w (reads w) - startTime (st w)).
    { split; intros H.
      - pose proof (Z.mul_div_le (clock w (reads w) - startTime (st w)) 1000). lia.
      - apply Z.div_le_lower_bound; lia. }
    unfold time_milestones. rewrite Hd. done.
Qed.

(** ** The phone formatter *)

Lemma formatPhoneNumber_format_digits s :
  formatPhoneNumber s = format_digits (strip_non_digits s).
Proof. reflexivity. Qed.

Lemma strip_non_digits_digits c : Forall (fun x => is_digit x = true) c -> strip_non_digits c = c.
Proof.
  unfold strip_non_digits. induction 1 as [|x c Hx Hc IH]; [done|].
  rewrite filter_cons_True by done. by rewrite IH.
Qed.

Lemma strip_non_digits_Forall s : Forall (fun x => is_digit x = true) (strip_non_digits s).
Proof.
  apply Forall_forall. intros x Hx. unfold strip_non_digits in Hx.
  by apply list_elem_of_filter in Hx as [Hx _].
Qed.

Lemma strip_non_digits_app a b :
  strip_non_digits (a ++ b) = strip_non_digits a ++ strip_non_digits b.
Proof. apply filter_app. Qed.

Lemma strip_format_digits c :
  Forall (fun x => is_digit x = true) c -> strip_non_digits (format_digits c) = take 10 c.
Proof.
  intros Hc. unfold format_digits.
  assert (Ht : forall n, strip_non_digits (take n c) = take n c)
    by (intros n; apply strip_non_digits_digits; by apply Forall_take).
  assert (Hd : forall n, strip_non_digits (drop n c) = drop n c)
    by (intros n; apply strip_non_digits_digits; by apply Forall_drop).
  assert (Htd : forall n k, strip_non_digits (take n (drop k c)) = take n (drop k c))
    by (intros n k; apply strip_non_digits_digits; by apply Forall_take, Forall_drop).
  destruct (Nat.leb_spec (length c) 3).
  - rewrite strip_non_digits_digits by done. by rewrite take_ge by lia.
  - destruct (Nat.leb_spec (length c) 6).
    + rewrite !strip_non_digits_app, Ht, Hd.
      change (strip_non_digits (js "(")) with (@nil N).
      change (strip_non_digits (js ") ")) with (@nil N).
      cbn [app]. rewrite take_drop. by rewrite take_ge by lia.
    + rewrite !strip_non_digits_app, Ht, !Htd.
      change (strip_non_digits (js "(")) with (@nil N).
      change (strip_non_digits (js ") ")) with (@nil N).
      change (strip_non_digits (js "-")) with (@nil N).
      cbn [app]. rewrite app_assoc.
      rewrite (take_take_drop c 3 3 : take 3 c ++ take 3 (drop 3 c) = take 6 c).
      apply (take_take_drop c 6 4).
Qed.

Lemma format_digits_take c : format_digits (take 10 c) = format_digits c.
Proof.
  unfold format_digits. rewrite length_take.
  destruct (Nat.leb_spec (length c) 3).
  - rewrite (proj2 (Nat.leb_le _ 3)) by lia. by rewrite (take_ge c 10) by lia.
  - rewrite (proj2 (Nat.leb_gt _ 3)) by lia.
    destruct (Nat.leb_spec (length c) 6).
    + rewrite (proj2 (Nat.leb_le _ 6)) by lia. by rewrite (take_ge c 10) by lia.
    + rewrite (proj2 (Nat.leb_gt _ 6)) by lia.
      rewrite take_take, !skipn_firstn_comm, !take_take. done.
Qed.

Lemma formatPhoneNumber_digits s :
  strip_non_digits (format_digits (strip_non_digits s)) = take 10 (strip_non_digits s).
Proof. apply strip_format_digits, strip_non_digits_Forall. Qed.


(** X7. Formatting a phone number that is already formatted changes
    nothing: the [input] listener can run on its own output. *)
Theorem X7_phone_format_is_idempotent (s : jsstring) :
  formatPhoneNumber (formatPhoneNumber s) = formatPhoneNumber s.
Proof.
  rewrite (formatPhoneNumber_format_digits (formatPhoneNumber s)).
  rewrite (formatPhoneNumber_format_digits s) at 1.
  rewrite formatPhoneNumber_digits, format_digits_take. reflexivity.
Qed.

(** ** What the email pattern accepts *)

Lemma lang_class p s : lang (Class p) s <-> exists c, s = [c] /\ p c = true.
Proof.
  split.
  - intros H. inversion H; subst. eauto.
  - intros (c & -> & H). by constructor.
Qed.

Lemma lang_cat r1 r2 s :
  lang (Cat r1 r2) s <-> exists s1 s2, s = s1 ++ s2 /\ lang r1 s1 /\ lang r2 s2.
Proof.
  split.
  - intros H. inversion H; subst. eauto.
  - intros (s1 & s2 & -> & H1 & H2). by constructor.
Qed.

Lemma lang_plus_class p s :
  lang (Plus (Class p)) s <-> s <> [] /\ forallb p s = true.
Proof.
  unfold Plus. rewrite lang_cat. split.
  - intros (s1 & s2 & -> & H1 & H2). apply lang_class in H1 as (c & -> & Hc).
    apply lang_star_class in H2. split; [done|]. cbn. by rewrite Hc, H2.
  - intros [Hne H]. destruct s as [|c s]; [done|]. cbn in H.
    apply andb_true_iff in H as [Hc Hs]. exists [c], s. split; [done|].
    split; [by apply lang_class; eauto | by apply lang_star_class].
Qed.

Lemma lang_chr c s : lang (Chr c) s <-> s = [c].
Proof.
  unfold Chr. rewrite lang_class. split.
  - intros (x & -> & H). apply N.eqb_eq in H. by subst.
  - intros ->. exists c. split; [done|]. apply N.eqb_refl.
Qed.

Lemma emailRegex_shape s :
  test emailRegex s = true <->
  exists u v w,
    s = u ++ [64%N] ++ v ++ [46%N] ++ w /\
    u <> [] /\ v <> [] /\ w <> [] /\
    forallb not_space_at u = true /\ forallb not_space_at v = true /\
    forallb not_space_at w = true.
Proof.
  rewrite test_lang. unfold emailRegex. split.
  - intros H.
    apply lang_cat in H as (u & r1 & -> & Hu & H). apply lang_plus_class in Hu as [Hu1 Hu2].
    apply lang_cat in H as (a & r2 & -> & Ha & H). apply lang_chr in Ha as ->.
    apply lang_cat in H as (v & r3 & -> & Hv & H). apply lang_plus_class in Hv as [Hv1 Hv2].
    apply lang_cat in H as (b & w & -> & Hb & Hw). apply lang_chr in Hb as ->.
    apply lang_plus_class in Hw as [Hw1 Hw2].
    exists u, v, w. repeat split; assumption || reflexivity.
  - intros (u & v & w & -> & Hu & Hv & Hw & Hu' & Hv' & Hw').
    apply lang_cat. exists u, ([64%N] ++ v ++ [46%N] ++ w).
    split; [done|]. split; [by apply lang_plus_class|].
    apply lang_cat. exists [64%N], (v ++ [46%N] ++ w).
    split; [done|]. split; [by apply lang_chr|].
    apply lang_cat. exists v, ([46%N] ++ w).
    split; [done|]. split; [by apply lang_plus_class|].
    apply lang_cat. exists [46%N], w.
    split; [done|]. split; [by apply lang_chr | by apply lang_plus_class].
Qed.

Lemma not_space_at_no_at s :
  forallb not_space_at s = true ->
  filter (fun c => c = 64%N) s = [] /\ forallb (fun c => negb (is_space c)) s = true.
Proof.
  induction s as [|c s IH]; cbn [forallb]; [done|].
  intros H. apply andb_true_iff in H as [Hc Hs]. destruct (IH Hs) as [IH1 IH2].
  unfold not_space_at in Hc. apply negb_true_iff, orb_false_iff in Hc as [Hc1 Hc2].
  apply N.eqb_neq in Hc2. rewrite filter_cons_False by done.
  by rewrite IH1, IH2, Hc1.
Qed.

(** X8. A string passes the email pattern exactly when it is a non-empty
    local part, one [@], a non-empty part, a dot and a non-empty rest, none
    of the three parts holding white space or [@]; so an accepted address
    holds exactly one [@] and no white space. *)
Theorem X8_email_pattern_shape (s : jsstring) :
  (test emailRegex s = true <->
   exists u v w,
     s = u ++ [64%N] ++ v ++ [46%N] ++ w /\
     u <> [] /\ v <> [] /\ w <> [] /\
     forallb not_space_at u = true /\ forallb not_space_at v = true /\
     forallb not_space_at w = true) /\
  (test emailRegex s = true ->
   length (filter (fun c => c = 64%N) s) = 1%nat /\
   forallb (fun c => negb (is_space c)) s = true).
Proof.
  split; [apply emailRegex_shape|].
  intros H. apply emailRegex_shape in H as (u & v & w & -> & _ & _ & _ & Hu & Hv & Hw).
  destruct (not_space_at_no_at u Hu) as [Hu1 Hu2].
  destruct (not_space_at_no_at v Hv) as [Hv1 Hv2].
  destruct (not_space_at_no_at w Hw) as [Hw1 Hw2].
  rewrite !filter_app, Hu1, Hv1, Hw1, !forallb_app, Hu2, Hv2, Hw2. split; reflexivity.
Qed.

Lemma X8_email_pattern_witness :
  length (filter (fun c => c = 64%N) (js "ann@acme.co")) = 1%nat /\
  forallb (fun c => negb (is_space c)) (js "ann@acme.co") = true.
Proof.
  apply (proj2 (X8_email_pattern_shape (js "ann@acme.co"))). vm_compute. reflexivity.
Defined.

(** ** More on the verdict of the validator *)

Lemma js_nonempty a s : js (String a s) <> [].
Proof. done. Qed.

Lemma js_app_nonempty a s (r : jsstring) : js (String a s) ++ r <> [].
Proof. done. Qed.

(** X9. The validator answers valid exactly when its message is empty: a
    refused field always has a message to show, an accepted one never. *)
Theorem X9_valid_iff_no_message (input : Input) :
  (validity input).1 = true <-> (validity input).2 = [].
Proof.
  unfold validity. cbv zeta.
  destruct (in_required input && _); cbn [fst snd].
  { split; [done|]. intros H. destruct (js_nonempty _ _ H). }
  destruct (jsstring_eqb _ _ && _ && _); cbn [fst snd].
  { split; [done|]. intros H. destruct (js_nonempty _ _ H). }
  destruct (in_minlength input) as [attr|].
  - destruct (int_lt_num _ _); cbn [fst snd]; [|done].
    split; [done|]. intros H. destruct (js_app_nonempty _ _ _ H).
  - destruct (includes (js "Name") _ && _ && _); cbn [fst snd].
    { split; [done|]. intros H. destruct (js_nonempty _ _ H). }
    destruct (includes (js "DOT") _ && _ && _); cbn [fst snd]; [|done].
    split; [done|]. intros H. destruct (js_nonempty _ _ H).
Qed.

(** X10. An optional field that is left empty (or holds white space only)
    is accepted and loses both marks when it has no [minlength] attribute,
    or one that is not a positive number; with a positive [minlength] it is
    refused for its length although it is optional. *)
Theorem X10_empty_optional_field (input : Input) :
  in_required input = false -> trim (in_value input) = [] ->
  (in_minlength input = None ->
   validity input = (true, []) /\ mark true input = set_marks false false input) /\
  (forall attr,
     in_minlength input = Some attr ->
     (validity input).1 = negb (int_lt_num 0 (parseInt attr))).
Proof.
  intros Hr Hv. unfold validity, mark. rewrite Hr, Hv. cbv zeta. cbn [andb is_empty negb].
  rewrite !andb_false_r. cbn [andb length]. change (Z.of_nat 0) with 0. split.
  - intros ->. done.
  - intros attr ->. by destruct (int_lt_num 0 (parseInt attr)).
Qed.

Lemma X10_empty_optional_witness :
  (validity (field None "entMessage" "textarea" "   " false (Some (js "10")))).1 = false /\
  validity (field None "entMessage" "textarea" "   " false None) = (true, []).
Proof.
  split.
  - apply (proj2 (X10_empty_optional_field
                    (field None "entMessage" "textarea" "   " false (Some (js "10")))
                    eq_refl eq_refl) (js "10") eq_refl).
  - apply (proj1 (X10_empty_optional_field
                    (field None "entMessage" "textarea" "   " false None)
                    eq_refl eq_refl) eq_refl).
Defined.

(** X11. On a field without a [minlength] attribute and of a type other
    than [email]: when the id holds [Name] (and not [DOT]), a value is
    accepted exactly when it is empty and optional, or at least two
    characters long and made of letters and white space, so a single letter
    is refused; when the id holds [DOT] (and not [Name]), a value is
    accepted exactly when it is empty and optional, or made of digits. *)
Theorem X11_name_and_dot_fields (input : Input) :
  in_minlength input = None -> in_type input <> js "email" ->
  let v := trim (in_value input) in
  (includes (js "Name") (in_id input) = true -> includes (js "DOT") (in_id input) = false ->
   (validity input).1
   = negb (in_required input && is_empty v)
     && (is_empty v || (2 <=? length v)%nat && forallb letter_or_space v)) /\
  (includes (js "DOT") (in_id input) = true -> includes (js "Name") (in_id input) = false ->
   (validity input).1
   = negb (in_required input && is_empty v) && forallb is_digit v).
Proof.
  intros Hm Ht v.
  assert (Hty : jsstring_eqb (in_type input) (js "email") = false)
    by (by apply bool_decide_eq_false).
  unfold validity. fold v. rewrite Hm, Hty. cbv zeta. cbn [andb].
  split; intros H1 H2; rewrite H1, H2; cbn [andb].
  - rewrite test_nameRegex.
    destruct (in_required input && is_empty v); cbn [negb andb fst]; [done|].
    destruct (is_empty v); cbn [negb orb]; [done|].
    by destruct ((2 <=? length v)%nat && forallb letter_or_space v).
  - rewrite test_digitsRegex.
    destruct (in_required input && is_empty v); cbn [negb andb fst]; [done|].
    destruct v; cbn [is_empty negb]; [done|].
    by destruct (forallb is_digit (n :: v)).
Qed.

Lemma X11_single_letter_witness :
  (validity (field None "entName" "text" "A" true None)).1 = false /\
  (validity (field None "carDOT" "text" "12a" true None)).1 = false.
Proof.
  split.
  - rewrite (proj1 (X11_name_and_dot_fields (field None "entName" "text" "A" true None)
                      eq_refl ltac:(vm_compute; discriminate)) eq_refl eq_refl).
    vm_compute. reflexivity.
  - rewrite (proj2 (X11_name_and_dot_fields (field None "carDOT" "text" "12a" true None)
                      eq_refl ltac:(vm_compute; discriminate)) eq_refl eq_refl).
    vm_compute. reflexivity.
Defined.

(** ** Validating again, and typing *)

Lemma mark_mark ok input : mark ok (mark ok input) = mark ok input.
Proof.
  unfold mark. cbv zeta.
  destruct ok, (is_empty (trim (in_value input))) eqn:E;
    cbn [andb negb in_value set_marks]; rewrite ?E; reflexivity.
Qed.

Lemma validity_mark ok input : validity (mark ok input) = validity input.
Proof. apply validity_unmark, unmark_mark. Qed.

Lemma in_id_mark ok input : in_id (mark ok input) = in_id input.
Proof. exact (f_equal in_id (unmark_mark ok input)). Qed.

(** X12. Validating a field a second time changes nothing: the verdict is
    the same and the document is the one the first validation left. *)
Theorem X12_validateField_is_idempotent (i : nat) (input : Input) (d : Dom) :
  inputs d !! i = Some input ->
  exists input',
    inputs (validateField i input d).2 !! i = Some input' /\
    validateField i input' (validateField i input d).2 = validateField i input d.
Proof.
  intros Hi. rewrite validateField_eq. cbn [snd].
  exists (mark (validity input).1 input). split.
  - rewrite update_ui_inputs. apply list_lookup_insert_eq. by apply lookup_lt_Some in Hi.
  - rewrite validateField_eq, validity_mark. f_equal.
    unfold update_ui. rewrite in_id_mark, mark_mark.
    destruct (texts d !! (in_id input ++ js "Error")) as [old|] eqn:E.
    + cbn [texts set_texts set_inputs inputs]. rewrite lookup_insert_eq.
      cbn [texts set_texts set_inputs inputs].
      by rewrite insert_insert_eq, list_insert_insert_eq.
    + cbn [texts set_texts set_inputs inputs]. rewrite E.
      cbn [texts set_texts set_inputs inputs]. by rewrite list_insert_insert_eq.
Qed.

Lemma X12_validateField_witness :
  exists input',
    inputs (validateField 0 (field (Some EnterpriseForm) "entName" "text" "J0hn" true None)
              (sample_dom "J0hn" "a@b.co" "1234567890" "a@b.co")).2 !! 0%nat = Some input' /\
    validateField 0 input'
      (validateField 0 (field (Some EnterpriseForm) "entName" "text" "J0hn" true None)
         (sample_dom "J0hn" "a@b.co" "1234567890" "a@b.co")).2
    = validateField 0 (field (Some EnterpriseForm) "entName" "text" "J0hn" true None)
        (sample_dom "J0hn" "a@b.co" "1234567890" "a@b.co").
Proof. apply X12_validateField_is_idempotent. reflexivity. Defined.

(** X13. Typing into a field never touches the session state; the value
    of a phone field becomes the formatted text; a field that is not
    marked invalid keeps its marks whatever is typed (a valid mark can go
    stale until the next blur), while a field of the class [form-input]
    that is marked invalid gets the mark of the new value at once. *)
Theorem X13_typing_into_a_field (i : nat) (v : jsstring) (w : World) (x : Input) :
  inputs (dom w) !! i = Some x ->
  let v' := if in_phone_input x then formatPhoneNumber v else v in
  st (on_input i v w) = st w /\
  timers (on_input i v w) = timers w /\
  exists y,
    inputs (dom (on_input i v w)) !! i = Some y /\
    in_value y = v' /\
    unmark y = unmark (set_value v' x) /\
    (in_form_input x && in_invalid x = false ->
     in_valid y = in_valid x /\ in_invalid y = in_invalid x /\
     texts (dom (on_input i v w)) = texts (dom w)) /\
    (in_form_input x && in_invalid x = true ->
     y = mark (validity (set_value v' x)).1 (set_value v' x)).
Proof.
  intros Hi v'. unfold on_input. rewrite Hi. cbv zeta.
  assert (Hlt : (i < length (inputs (dom w)))%nat) by (by apply lookup_lt_Some in Hi).
  assert (Hx : (if in_phone_input (set_value v x)
                then set_value (formatPhoneNumber (in_value (set_value v x))) (set_value v x)
                else set_value v x) = set_value v' x).
  { subst v'. cbn [in_phone_input in_value set_value]. by destruct (in_phone_input x). }
  rewrite Hx. cbn [in_form_input in_invalid set_value].
  destruct (in_form_input x && in_invalid x) eqn:E.
  - split; [done|]. split; [done|].
    rewrite validateField_eq. cbn [snd dom set_dom]. rewrite update_ui_inputs.
    cbn [inputs set_inputs]. rewrite list_insert_insert_eq.
    eexists. split; [by apply list_lookup_insert_eq|].
    split; [exact (f_equal in_value (unmark_mark _ _))|].
    split; [apply unmark_mark|]. done.
  - split; [done|]. split; [done|].
    cbn [dom set_dom inputs set_inputs texts].
    eexists. split; [by apply list_lookup_insert_eq|]. done.
Qed.

Lemma X13_typing_witness :
  exists y,
    inputs (dom (on_input 3 (js "5550102030")
                   (sample_world "Ann" "a@b.co" "1234567890" "a@b.co"))) !! 3%nat = Some y /\
    in_value y = js "5550102030".
Proof.
  destruct (X13_typing_into_a_field 3 (js "5550102030")
              (sample_world "Ann" "a@b.co" "1234567890" "a@b.co")
              (field (Some EnterpriseForm) "entPhone" "tel" "(555) 010-2030" false None))
    as (_ & _ & y & H1 & H2 & _).
  - reflexivity.
  - exists y. split; [exact H1 | exact H2].
Defined.

(** ** More on the modals *)

Lemma on_keydown_escape w :
  on_keydown (js "Escape") w = closeModal carrier (closeModal enterprise (closeModal choice w)).
Proof.
  unfold on_keydown, jsstring_eqb. by rewrite bool_decide_eq_true_2.
Qed.

Lemma on_keydown_other key w : key <> js "Escape" -> on_keydown key w = w.
Proof.
  intros H. unfold on_keydown, jsstring_eqb. by rewrite bool_decide_eq_false_2.
Qed.

Lemma closeModal_dom m w : dom (closeModal m w) = close_dom m (dom w).
Proof. unfold closeModal, close_dom. by destruct (modal_el m (dom w)). Qed.

Lemma closeModal_leads m w : leads (st (closeModal m w)) = leads (st w).
Proof. unfold closeModal. by destruct (modal_el m (dom w)). Qed.

Lemma closeModal_events m w :
  exists es,
    events (st (closeModal m w)) = events (st w) ++ es /\
    length es = match modal_el m (dom w) with Some _ => 1 | None => 0 end%nat /\
    Forall (fun e => e !! "event" = Some (VStr (js "modal_closed"))) es.
Proof.
  unfold closeModal. destruct (modal_el m (dom w)).
  - eexists [_]. split; [reflexivity|]. split; [done|].
    apply Forall_singleton. by apply event_record_name.
  - exists []. split; [by rewrite app_nil_r|]. done.
Qed.

(** X14. The Escape key closes every modal of the page: afterwards each
    modal element is without the class [active], one [modal_closed] event
    per modal element has been appended, the leads are as before, and the
    scroll lock is released when the page has a modal at all; any other key
    changes nothing. *)
Theorem X14_escape_closes_every_modal (w : World) :
  let w' := step (KeyDown (js "Escape")) w in
  (forall m, modal_el m (dom w') = (fun _ => false) <$> modal_el m (dom w)) /\
  leads (st w') = leads (st w) /\
  (exists es,
     events (st w') = events (st w) ++ es /\
     length es = length (filter (fun m => is_Some (modal_el m (dom w))) modal_keys) /\
     Forall (fun e => e !! "event" = Some (VStr (js "modal_closed"))) es) /\
  ((exists m, is_Some (modal_el m (dom w))) -> body_overflow (dom w') = []) /\
  (forall key, key <> js "Escape" -> step (KeyDown key) w = w).
Proof.
  intros w'. subst w'. cbn [step]. rewrite on_keydown_escape.
  split; [|split; [|split; [|split]]].
  - rewrite !closeModal_dom. destruct (dom w) as [].
    unfold close_dom. cbn [modal_el choiceModal enterpriseModal carrierModal].
    destruct choiceModal0, enterpriseModal0, carrierModal0; intros []; reflexivity.
  - by rewrite !closeModal_leads.
  - destruct (closeModal_events choice w) as (e1 & E1 & L1 & F1).
    destruct (closeModal_events enterprise (closeModal choice w)) as (e2 & E2 & L2 & F2).
    destruct (closeModal_events carrier (closeModal enterprise (closeModal choice w)))
      as (e3 & E3 & L3 & F3).
    exists (e1 ++ e2 ++ e3). split; [by rewrite E3, E2, E1, <- !app_assoc|].
    split; [|by repeat (apply Forall_app; split)].
    rewrite !length_app, L1, L2, L3, !closeModal_dom. destruct (dom w) as [].
    unfold close_dom, modal_keys.
    cbn [modal_el choiceModal enterpriseModal carrierModal].
    destruct choiceModal0, enterpriseModal0, carrierModal0; reflexivity.
  - intros [m Hm]. rewrite !closeModal_dom. destruct (dom w) as [].
    unfold close_dom. cbn [modal_el choiceModal enterpriseModal carrierModal] in *.
    destruct choiceModal0, enterpriseModal0, carrierModal0; try reflexivity.
    destruct m; by destruct Hm.
  - intros key Hk. by apply on_keydown_other.
Qed.

Lemma openModal_present m w a :
  modal_el m (dom w) = Some a ->
  openModal m w
  = trackEvent (js "modal_opened") {["modal" := VStr (modal_name m)]}
      (set_dom (set_body_overflow (js "hidden") (set_modal_active m true (dom w))) w).
Proof. intros H. unfold openModal. by rewrite H. Qed.

(** X15. Opening a modal does not close the others: with two modal
    elements in the page, opening one and then the other leaves both with
    the class [active] and the page locked; closing the first then releases
    the scroll lock although the second is still open. *)
Theorem X15_two_modals_can_be_open (m1 m2 : Modal) (w : World) :
  m1 <> m2 -> is_Some (modal_el m1 (dom w)) -> is_Some (modal_el m2 (dom w)) ->
  let w' := openModal m2 (openModal m1 w) in
  modal_el m1 (dom w') = Some true /\
  modal_el m2 (dom w') = Some true /\
  body_overflow (dom w') = js "hidden" /\
  modal_el m2 (dom (closeModal m1 w')) = Some true /\
  body_overflow (dom (closeModal m1 w')) = [].
Proof.
  intros Hne [a1 H1] [a2 H2] w'. subst w'.
  assert (H2' : modal_el m2 (dom (openModal m1 w)) = Some a2).
  { rewrite (openModal_present m1 w a1 H1). cbn [dom trackEvent now set_st set_dom].
    destruct (dom w) as []. by destruct m1, m2. }
  rewrite (openModal_present m2 _ a2 H2'), (openModal_present m1 w a1 H1).
  rewrite closeModal_dom. cbn [dom trackEvent now set_st set_dom].
  destruct (dom w) as []. unfold close_dom.
  destruct m1, m2; try done; repeat split; reflexivity.
Qed.

Lemma X15_two_modals_witness :
  modal_el choice
    (dom (openModal enterprise
            (openModal choice (sample_world "Ann" "a@b.co" "1234567890" "a@b.co"))))
  = Some true /\
  modal_el enterprise
    (dom (openModal enterprise
            (openModal choice (sample_world "Ann" "a@b.co" "1234567890" "a@b.co"))))
  = Some true.
Proof.
  destruct (X15_two_modals_can_be_open choice enterprise
              (sample_world "Ann" "a@b.co" "1234567890" "a@b.co"))
    as (H1 & H2 & _).
  - discriminate.
  - by eexists.
  - by eexists.
  - split; [exact H1 | exact H2].
Defined.

(** ** Toasts *)

(** X16. The timers of the toasts are never cancelled: when a second
    toast is shown before the first has been hidden, the timer of the first
    hides the second one, whose own timer is still pending. *)
Theorem X16_first_timer_hides_second_toast (w : World) (m1 m2 : jsstring) :
  let w2 := showToast m2 (showToast m1 w) in
  let w3 := step (TimerFires (length (timers w))) w2 in
  toast_show (dom w2) = true /\ toast_text (dom w2) = m2 /\
  toast_show (dom w3) = false /\ toast_text (dom w3) = m2 /\
  timers w3 = timers w ++ [ToastHide] /\
  st w3 = st w.
Proof.
  intros w2 w3. subst w2 w3. destruct w as [s d l c r e]. cbn [step timers].
  unfold showToast, setTimeout, set_dom, fire.
  cbn [st dom timers clock reads endTime set_toast toast_show toast_text].
  rewrite <- app_assoc. change ([ToastHide] ++ [ToastHide]) with [ToastHide; ToastHide].
  rewrite list_lookup_middle by done.
  cbn [run_task set_timers set_dom st dom timers clock reads endTime set_toast
       toast_show toast_text].
  rewrite delete_middle. done.
Qed.

(** ** The carrier form, the reset of a form and the email capture *)

Lemma carrier_formData_fields d data :
  formData CarrierForm d = Some data ->
  data !! "name" = value_of "carName" d /\
  data !! "email" = value_of "carEmail" d /\
  data !! "company" = value_of "carCompany" d /\
  data !! "phone" = value_of "carPhone" d /\
  data !! "fleetType" = value_of "carFleetType" d /\
  data !! "vehicleCount" = value_of "carVehicleCount" d /\
  data !! "dot" = value_of "carDOT" d /\
  data !! "insurance" = value_of "carInsurance" d /\
  data !! "message" = value_of "carMessage" d.
Proof.
  unfold formData.
  destruct (value_of "carName" d) as [v1|]; [|done].
  destruct (value_of "carEmail" d) as [v2|]; [|done].
  destruct (value_of "carCompany" d) as [v3|]; [|done].
  destruct (value_of "carPhone" d) as [v4|]; [|done].
  destruct (value_of "carFleetType" d) as [v5|]; [|done].
  destruct (value_of "carVehicleCount" d) as [v6|]; [|done].
  destruct (value_of "carDOT" d) as [v7|]; [|done].
  destruct (value_of "carInsurance" d) as [v8|]; [|done].
  destruct (value_of "carMessage" d) as [v9|]; [|done].
  cbn [mbind option_bind]. intros [= <-]. repeat split; by simplify_map_eq.
Qed.

(** X17. When every required field of the carrier form passes validation
    (and the page has the nine fields that the handler reads), the
    submission followed by its two callbacks appends exactly one lead, of
    type [carrier], holding the nine values of the fields at the time of
    the submission; among the events it appends exactly one is a
    [form_submitted] event, the first, with form type [carrier]; and no
    callback of the submission is left pending. *)
Theorem X17_carrier_submission_records_one_lead w data :
  all_valid CarrierForm (dom w) ->
  formData CarrierForm (dom w) = Some data ->
  let k := length (timers w) in
  let w' := run [Submit CarrierForm; TimerFires k; TimerFires k] w in
  (data !! "name" = value_of "carName" (dom w) /\
   data !! "email" = value_of "carEmail" (dom w) /\
   data !! "company" = value_of "carCompany" (dom w) /\
   data !! "phone" = value_of "carPhone" (dom w) /\
   data !! "fleetType" = value_of "carFleetType" (dom w) /\
   data !! "vehicleCount" = value_of "carVehicleCount" (dom w) /\
   data !! "dot" = value_of "carDOT" (dom w) /\
   data !! "insurance" = value_of "carInsurance" (dom w) /\
   data !! "message" = value_of "carMessage" (dom w)) /\
  (exists t e closing,
     leads (st w') = leads (st w) ++ [mkLead (js "carrier") (VDate t) data] /\
     events (st w') = events (st w) ++ e :: closing /\
     e !! "event" = Some (VStr (js "form_submitted")) /\
     e !! "formType" = Some (VStr (js "carrier")) /\
     count_events (event_named (js "form_submitted")) (e :: closing) = 1%nat) /\
  timers w' = timers w.
Proof.
  intros Hv Hd k w'. split; [by apply carrier_formData_fields|].
  destruct (submission_flow CarrierForm w data Hv Hd)
    as (_ & _ & t & e & closing & H1 & H2 & H3 & H4 & H5 & H6).
  split; [|exact H6]. exists t, e, closing. done.
Qed.

Lemma X17_carrier_submission_witness :
  exists t data,
    leads (st (run [Submit CarrierForm; TimerFires 0; TimerFires 0]
                 (sample_world "Ann Lee" "ann@acme.co" "1234567890" "ann@acme.co")))
    = [] ++ [mkLead (js "carrier") (VDate t) data] /\
    data !! "dot" = Some (js "1234567890").
Proof.
  destruct (X17_carrier_submission_records_one_lead
              (sample_world "Ann Lee" "ann@acme.co" "1234567890" "ann@acme.co")
              (<["message" := []]> (<["insurance" := js "yes"]>
                 (<["dot" := js "1234567890"]> (<["vehicleCount" := js "12"]>
                 (<["fleetType" := js "flatbed"]> (<["phone" := js "(555) 010-2030"]>
                 (<["company" := js "Acme Freight"]> (<["email" := js "ann@acme.co"]>
                 (<["name" := js "Ann Lee"]> ∅))))))))))
    as (_ & (t & e & closing & H & _) & _).
  - apply all_valid_forallb. vm_compute. reflexivity.
  - vm_compute. reflexivity.
  - exists t. eexists. split; [exact H|]. vm_compute. reflexivity.
Defined.

Lemma submit_reset_dom f w :
  dom (submit_reset f w)
  = set_inputs (clear_marks (reset_fields f (inputs (dom w))))
      (set_form_ui f (mkFormUi false false false false)
         (close_dom (form_modal f) (dom w))).
Proof.
  unfold submit_reset. cbn [dom set_dom]. rewrite closeModal_dom.
  unfold close_dom. destruct (dom w) as [].
  destruct f; cbn [form_modal modal_el choiceModal enterpriseModal carrierModal];
    match goal with |- context [match ?o with Some _ => _ | None => _ end] =>
      destruct o end; reflexivity.
Qed.

(** X18. The callback that ends a submission resets more than its form:
    every field of the form gets its default value back and the fields of
    the other forms keep theirs, but the marks [valid] and [invalid] are
    taken from every [.form-input] of the page, those of the other form
    included; the button and the success state of the form are idle again
    and those of the other form are untouched; the modal of the form is
    closed; the inline error messages are left as they are, and no lead is
    added. *)
Theorem X18_reset_callback (f : Form) (w : World) :
  let w' := run_task (reset_task f) w in
  length (inputs (dom w')) = length (inputs (dom w)) /\
  (forall i x, inputs (dom w) !! i = Some x ->
     exists y, inputs (dom w') !! i = Some y /\
       in_id y = in_id x /\ in_form y = in_form x /\
       in_value y = (if bool_decide (in_form x = Some f) then in_default x else in_value x) /\
       (in_form_input x = true -> in_valid y = false /\ in_invalid y = false) /\
       (in_form_input x = false -> in_valid y = in_valid x /\ in_invalid y = in_invalid x)) /\
  form_ui f (dom w') = mkFormUi false false false false /\
  (forall g, g <> f -> form_ui g (dom w') = form_ui g (dom w)) /\
  modal_el (form_modal f) (dom w')
  = (fun _ => false) <$> modal_el (form_modal f) (dom w) /\
  texts (dom w') = texts (dom w) /\
  leads (st w') = leads (st w).
Proof.
  intros w'. subst w'. rewrite run_reset_task.
  destruct (submit_reset_st f w) as [Hs _]. rewrite Hs, closeModal_leads.
  rewrite submit_reset_dom.
  split; [|split; [|split; [|split; [|split; [|split]]]]].
  - cbn [inputs set_inputs]. unfold clear_marks, reset_fields.
    by rewrite !length_fmap.
  - intros i x Hx. cbn [inputs set_inputs]. unfold clear_marks, reset_fields.
    rewrite !list_lookup_fmap, Hx. cbn [fmap option_fmap option_map].
    eexists. split; [reflexivity|].
    destruct (bool_decide (in_form x = Some f));
      destruct x as [id ty v dv rq ml fm fi ph vl iv]; cbn;
      destruct fi; cbn; repeat split; congruence.
  - by destruct f.
  - intros g Hg. unfold close_dom. destruct (dom w) as [].
    destruct f, g; try done;
      cbn [form_modal modal_el choiceModal enterpriseModal carrierModal];
      match goal with |- context [match ?o with Some _ => _ | None => _ end] =>
        destruct o end; reflexivity.
  - unfold close_dom. destruct (dom w) as [].
    destruct f; cbn [form_modal modal_el choiceModal enterpriseModal carrierModal];
      match goal with |- context [match ?o with Some _ => _ | None => _ end] =>
        destruct o end; reflexivity.
  - unfold close_dom. destruct (dom w) as [].
    destruct f; cbn [form_modal modal_el choiceModal enterpriseModal carrierModal];
      match goal with |- context [match ?o with Some _ => _ | None => _ end] =>
        destruct o end; reflexivity.
  - reflexivity.
Qed.

Lemma on_submit_email_ok w i x :
  find_input (js "quickEmail") (dom w) = Some (i, x) ->
  test emailRegex (trim (in_value x)) = true ->
  on_submit_email w
  = setTimeout (EmailReset i)
      (set_dom (set_email_ui (js "none") true (dom w))
         (trackEvent (js "email_captured") {["email" := VStr (trim (in_value x))]}
            (saveLead (mkLead (js "email") (VDate (clock w (reads w)))
                         {["email" := trim (in_value x)]})
               (now w).2))).
Proof. intros Hf Ht. unfold on_submit_email. by rewrite Hf, Ht. Qed.

(** X19. A submission of the email capture form whose trimmed address
    matches the pattern records one lead of type [email] with the trimmed
    address, appends one [email_captured] event with it, swaps the form for
    the success message and shows no toast; the callback it schedules
    brings the form back and empties the field, and changes nothing of the
    session. *)
Theorem X19_email_capture (w : World) (i : nat) (x : Input) :
  find_input (js "quickEmail") (dom w) = Some (i, x) ->
  test emailRegex (trim (in_value x)) = true ->
  let k := length (timers w) in
  let w1 := step SubmitEmail w in
  let w2 := step (TimerFires k) w1 in
  (exists t e,
     leads (st w1)
     = leads (st w) ++ [mkLead (js "email") (VDate t) {["email" := trim (in_value x)]}] /\
     events (st w1) = events (st w) ++ [e] /\
     e !! "event" = Some (VStr (js "email_captured")) /\
     e !! "email" = Some (VStr (trim (in_value x)))) /\
  email_form_display (dom w1) = js "none" /\ email_success_show (dom w1) = true /\
  inputs (dom w1) = inputs (dom w) /\
  toast_show (dom w1) = toast_show (dom w) /\
  st w2 = st w1 /\ timers w2 = timers w /\
  email_form_display (dom w2) = js "flex" /\ email_success_show (dom w2) = false /\
  inputs (dom w2) = <[i := set_value [] x]> (inputs (dom w)).
Proof.
  intros Hf Ht k w1 w2. subst k w1 w2. cbn [step].
  assert (Hi : inputs (dom w) !! i = Some x).
  { unfold find_input in Hf. by apply list_find_Some in Hf as (? & _). }
  rewrite (on_submit_email_ok w i x Hf Ht).
  rewrite fire_setTimeout by reflexivity.
  split.
  - exists (clock w (reads w)). eexists. split; [reflexivity|].
    split; [reflexivity|]. split.
    + by apply event_record_name.
    + by apply event_record_lookup_data.
  - destruct w as [s d l c r e]. cbn [run_task]. unfold email_reset.
    cbn [st dom timers clock reads endTime set_dom set_st saveLead trackEvent now
         set_email_ui inputs email_form_display email_success_show toast_show] in *.
    rewrite Hi. repeat split; reflexivity.
Qed.

Lemma X19_email_capture_witness :
  exists t,
    leads (st (step SubmitEmail (sample_world "Ann" "a@b.co" "1234567890" " ann@acme.co ")))
    = [] ++ [mkLead (js "email") (VDate t) {["email" := js "ann@acme.co"]}].
Proof.
  destruct (X19_email_capture (sample_world "Ann" "a@b.co" "1234567890" " ann@acme.co ")
              15 (field None "quickEmail" "email" " ann@acme.co " false None))
    as ((t & e & H & _) & _).
  - vm_compute. reflexivity.
  - vm_compute. reflexivity.
  - exists t. exact H.
Defined.

(** ** Widgets *)

Lemma countdown_parts_text diff :
  0 < diff ->
  countdown_text diff
  = int_to_string (countdown_parts diff).1.1.1 ++ js "d "
    ++ int_to_string (countdown_parts diff).1.1.2 ++ js "h "
    ++ int_to_string (countdown_parts diff).1.2 ++ js "m "
    ++ int_to_string (countdown_parts diff).2 ++ js "s".
Proof.
  intros H. unfold countdown_text. by rewrite (proj2 (Z.leb_gt diff 0) H).
Qed.

(** X20. Before the target instant the four numbers of the countdown are
    within their ranges (hours below 24, minutes and seconds below 60, none
    negative) and together they give back the remaining whole seconds; in
    the last second before the target the text is [0d 0h 0m 0s], not
    [Expired]. *)
Theorem X20_countdown_parts_recompose (diff : Z) :
  0 < diff ->
  let d := (countdown_parts diff).1.1.1 in
  let h := (countdown_parts diff).1.1.2 in
  let m := (countdown_parts diff).1.2 in
  let s := (countdown_parts diff).2 in
  countdown_text diff
  = int_to_string d ++ js "d " ++ int_to_string h ++ js "h " ++ int_to_string m ++ js "m "
    ++ int_to_string s ++ js "s" /\
  0 <= d /\ 0 <= h < 24 /\ 0 <= m < 60 /\ 0 <= s < 60 /\
  ((d * 24 + h) * 60 + m) * 60 + s = diff / 1000 /\
  (diff < 1000 -> countdown_text diff = js "0d 0h 0m 0s").
Proof.
  intros H d h m s. split; [by apply countdown_parts_text|].
  subst d h m s. unfold countdown_parts. cbn [fst snd].
  change (1000 * 60 * 60 * 24) with 86400000.
  change (1000 * 60 * 60) with 3600000. change (1000 * 60) with 60000.
  split; [|split; [|split; [|split; [|split]]]].
  - apply Z.div_pos; lia.
  - apply Z.mod_pos_bound. lia.
  - apply Z.mod_pos_bound. lia.
  - apply Z.mod_pos_bound. lia.
  - Z.div_mod_to_equations. lia.
  - intros Hlt. rewrite (countdown_parts_text diff H). unfold countdown_parts.
    cbn [fst snd].
    change (1000 * 60 * 60 * 24) with 86400000.
    change (1000 * 60 * 60) with 3600000. change (1000 * 60) with 60000.
    rewrite !(Z.div_small diff) by lia. vm_compute. reflexivity.
Qed.

Lemma X20_countdown_parts_witness :
  countdown_text 90061000 = js "1d 1h 1m 1s" /\ countdown_text 999 = js "0d 0h 0m 0s".
Proof.
  destruct (X20_countdown_parts_recompose 90061000 eq_refl) as (H & _).
  destruct (X20_countdown_parts_recompose 999 eq_refl) as (_ & _ & _ & _ & _ & _ & H').
  split; [|apply H'; reflexivity].
  rewrite H. vm_compute. reflexivity.
Defined.

Lemma nextTestimonial_cases n i :
  0 <= i < n -> nextTestimonial n i = if i + 1 =? n then 0 else i + 1.
Proof.
  intros H. unfold nextTestimonial. rewrite Z.rem_mod_nonneg by lia.
  destruct (Z.eqb_spec (i + 1) n) as [->|Hn].
  - apply Z_mod_same_full.
  - apply Z.mod_small. lia.
Qed.

Lemma prevTestimonial_cases n i :
  0 <= i < n -> prevTestimonial n i = if i =? 0 then n - 1 else i - 1.
Proof.
  intros H. unfold prevTestimonial. rewrite Z.rem_mod_nonneg by lia.
  destruct (Z.eqb_spec i 0) as [->|Hn].
  - replace (0 - 1 + n) with (n - 1) by lia. apply Z.mod_small. lia.
  - replace (i - 1 + n) with (i - 1 + 1 * n) by lia.
    rewrite Z_mod_plus_full. apply Z.mod_small. lia.
Qed.

Lemma carousel_step_range n i a : 0 <= i < n -> 0 <= carousel_step n i a < n.
Proof.
  intros H. destruct a; cbn [carousel_step];
    rewrite ?nextTestimonial_cases, ?prevTestimonial_cases by done;
    repeat match goal with |- context [?x =? ?y] => destruct (Z.eqb_spec x y) end; lia.
Qed.

Lemma carousel_run_range n l : 0 < n -> 0 <= carousel_run n l < n.
Proof.
  intros Hn. unfold carousel_run. induction l as [|a l IH] using rev_ind.
  - cbn. lia.
  - rewrite foldl_snoc. by apply carousel_step_range.
Qed.

Lemma showTestimonial_one n i :
  0 <= i < Z.of_nat n ->
  showTestimonial n i = <[Z.to_nat i := true]> (replicate n false).
Proof.
  intros Hi. apply list_eq. intros j. unfold showTestimonial.
  rewrite list_lookup_fmap.
  destruct (decide (j < n)%nat) as [Hj|Hj].
  - rewrite lookup_seq_lt by done. cbn [fmap option_fmap option_map Nat.add].
    destruct (decide (j = Z.to_nat i)) as [->|Hne].
    + rewrite list_lookup_insert_eq by (rewrite length_replicate; lia).
      f_equal. apply bool_decide_eq_true_2. lia.
    + rewrite list_lookup_insert_ne by done.
      rewrite lookup_replicate_2 by done.
      f_equal. apply bool_decide_eq_false_2. lia.
  - rewrite lookup_seq_ge by lia. symmetry. apply lookup_ge_None_2.
    rewrite length_insert, length_replicate. lia.
Qed.

(** X21. On a page with testimonial cards, whatever the sequence of
    interval ticks and clicks on the two buttons, the index of the carousel
    stays the index of a card, [showTestimonial] at it leaves exactly that
    card active, and from there the previous button undoes the next button
    and conversely. *)
Theorem X21_carousel_index_stays_on_a_card (n : nat) (l : list CarouselAction) :
  (0 < n)%nat ->
  let i := carousel_run (Z.of_nat n) l in
  0 <= i < Z.of_nat n /\
  showTestimonial n i = <[Z.to_nat i := true]> (replicate n false) /\
  prevTestimonial (Z.of_nat n) (nextTestimonial (Z.of_nat n) i) = i /\
  nextTestimonial (Z.of_nat n) (prevTestimonial (Z.of_nat n) i) = i.
Proof.
  intros Hn i. assert (Hi : 0 <= i < Z.of_nat n) by (apply carousel_run_range; lia).
  split; [done|]. split; [by apply showTestimonial_one|].
  assert (Hnext := carousel_step_range (Z.of_nat n) i CarouselNext Hi).
  assert (Hprev := carousel_step_range (Z.of_nat n) i CarouselPrev Hi).
  cbn [carousel_step] in Hnext, Hprev.
  clearbody i. split.
  - rewrite (prevTestimonial_cases _ _ Hnext), (nextTestimonial_cases _ _ Hi).
    destruct (Z.eqb_spec (i + 1) (Z.of_nat n)).
    + rewrite Z.eqb_refl. lia.
    + rewrite (proj2 (Z.eqb_neq (i + 1) 0)) by lia. lia.
  - rewrite (nextTestimonial_cases _ _ Hprev), (prevTestimonial_cases _ _ Hi).
    destruct (Z.eqb_spec i 0).
    + rewrite (proj2 (Z.eqb_eq (Z.of_nat n - 1 + 1) (Z.of_nat n))) by lia. lia.
    + rewrite (proj2 (Z.eqb_neq (i - 1 + 1) (Z.of_nat n))) by lia. lia.
Qed.

Lemma X21_carousel_witness :
  carousel_run 3 [CarouselNext; CarouselTick; CarouselTick; CarouselPrev; CarouselPrev] = 1 /\
  showTestimonial 3 1 = [false; true; false].
Proof.
  destruct (X21_carousel_index_stays_on_a_card 3
              [CarouselNext; CarouselTick; CarouselTick; CarouselPrev; CarouselPrev])
    as (_ & H & _).
  - lia.
  - split; [reflexivity | exact H].
Defined.

(** X22. The activity feed shows its six lines in order and starts over
    after the sixth: the call of [rotateFeed] at load followed by [k] ticks
    of its interval shows line [k mod 6], never [undefined], and leaves the
    index at [(k + 1) mod 6]. *)
Theorem X22_feed_rotates_through_six_lines (k : nat) :
  feed_after k = (feedItems !! (k mod 6)%nat, Z.of_nat (S k mod 6)) /\
  is_Some (feed_after k).1.
Proof.
  assert (H : feed_after k = (feedItems !! (k mod 6)%nat, Z.of_nat (S k mod 6))).
  { induction k as [|k IH].
    - reflexivity.
    - cbn [feed_after]. rewrite IH. cbn [snd]. unfold rotateFeed.
      assert (Hlt : (S k mod 6 < 6)%nat) by (apply Nat.mod_upper_bound; lia).
      rewrite (proj2 (Z.ltb_ge _ 0)) by lia. rewrite Nat2Z.id. f_equal.
      change (Z.of_nat (length feedItems)) with 6.
      rewrite Z.rem_mod_nonneg by lia.
      rewrite !Nat2Z.inj_mod, (Nat2Z.inj_succ (S k)), <- Z.add_1_r.
      change (Z.of_nat 6) with 6. by rewrite Z.add_mod_idemp_l by lia. }
  split; [exact H|]. rewrite H. cbn [fst]. apply lookup_lt_is_Some.
  change (length feedItems) with 6%nat. apply Nat.mod_upper_bound. lia.
Qed.

(** X23. Two clicks on the chat bubble leave the chat window as it was
    and track exactly one [chat_opened] event, that of the click that opened
    it; the close button tracks nothing. *)
Theorem X23_chat_bubble_toggles (w : World) :
  let w2 := step ChatBubbleClick (step ChatBubbleClick w) in
  chat_open (dom w2) = chat_open (dom w) /\
  (exists e, events (st w2) = events (st w) ++ [e] /\
     e !! "event" = Some (VStr (js "chat_opened"))) /\
  leads (st w2) = leads (st w) /\
  st (step ChatCloseClick w) = st w /\
  chat_open (dom (step ChatCloseClick w)) = false.
Proof.
  intros w2. subst w2. destruct w as [s d l c r e]. destruct d as []. cbn [step].
  cbn [dom set_dom set_chat_open chat_open st].
  destruct chat_open0; cbn [negb dom set_dom set_chat_open chat_open st trackEvent now
    set_st events set_events leads];
    (split; [reflexivity|]); (split; [|split; [reflexivity|split; reflexivity]]);
    eexists; (split; [reflexivity|]); by apply event_record_name.
Qed.

(** ** Page load *)

(** X24. The load of the page starts the session with exactly one event,
    the page view, stamped with the session identifier, which begins with
    [session_]; there are no leads, no milestones and no pending callbacks
    yet. Of the document that the handlers see only the countdown changes:
    it shows
    the time left from the instant read just before; when the clock did not
    move between those two reads that is [6d 23h 45m 12s]. *)
Theorem X24_page_load (suffix : jsstring) (draw : Q) (clk : nat -> Z) (d : Dom) :
  let w := init suffix draw clk d in
  (exists e, events (st w) = [e] /\
     e !! "event" = Some (VStr (js "page_view")) /\
     e !! "timestamp" = Some (VDate (clk 2%nat)) /\
     e !! "sessionId" = Some (VStr (sessionId (st w)))) /\
  starts_with (js "session_") (sessionId (st w)) = true /\
  startTime (st w) = clk 1%nat /\
  leads (st w) = [] /\ scrollDepths (st w) = ∅ /\ timeMilestones (st w) = ∅ /\
  timers w = [] /\
  dom w
  = match countdownEl d with
    | Some _ => set_countdownEl (Some (countdown_text (603912000 - (clk 4%nat - clk 3%nat)))) d
    | None => d
    end /\
  (is_Some (countdownEl d) -> clk 4%nat = clk 3%nat ->
   countdownEl (dom w) = Some (js "6d 23h 45m 12s")).
Proof.
  intros w. subst w. unfold init, trackEvent, updateCountdown. cbv zeta.
  cbn [now st dom timers clock reads endTime set_st set_endTime set_dom].
  destruct (countdownEl d) as [old|] eqn:Hc.
  - cbn [now st dom timers clock reads endTime set_st set_endTime set_dom]. rewrite ?Hc.
    cbn [now st dom timers clock reads endTime set_st set_endTime set_dom
         events set_events leads scrollDepths timeMilestones sessionId startTime].
    split; [|split; [|split; [|split; [|split; [|split; [|split; [|split]]]]]]];
      try reflexivity.
    + eexists. split; [reflexivity|]. split; [by apply event_record_name|].
      split; unfold event_record, spread; by simplify_map_eq.
    + f_equal. f_equal. f_equal. lia.
    + intros _ Heq. cbn [countdownEl set_countdownEl]. f_equal. rewrite Heq.
      replace (_ - clk 3%nat) with 603912000 by lia. vm_compute. reflexivity.
  - cbn [now st dom timers clock reads endTime set_st set_endTime set_dom
         events set_events leads scrollDepths timeMilestones sessionId startTime].
    split; [|split; [|split; [|split; [|split; [|split; [|split; [|split]]]]]]];
      try reflexivity.
    + eexists. split; [reflexivity|]. split; [by apply event_record_name|].
      split; unfold event_record, spread; by simplify_map_eq.
    + intros [? [=]].
Qed.

(** ** Call-to-action buttons *)

Lemma openModal_dom m w : dom (openModal m w) = open_dom m (dom w).
Proof. unfold openModal, open_dom. by destruct (modal_el m (dom w)). Qed.

Lemma openModal_leads m w : leads (st (openModal m w)) = leads (st w).
Proof. unfold openModal. by destruct (modal_el m (dom w)). Qed.

Lemma openModal_events m w :
  events (st (openModal m w))
  = events (st w)
    ++ match modal_el m (dom w) with
       | Some _ => [event_record (js "modal_opened") {["modal" := VStr (modal_name m)]}
                      (st w) (clock w (reads w))]
       | None => []
       end.
Proof.
  unfold openModal. destruct (modal_el m (dom w)); [reflexivity|].
  by rewrite app_nil_r.
Qed.

Lemma closeModal_events_eq m w :
  events (st (closeModal m w))
  = events (st w)
    ++ match modal_el m (dom w) with
       | Some _ => [event_record (js "modal_closed") {["modal" := VStr (modal_name m)]}
                      (st w) (clock w (reads w))]
       | None => []
       end.
Proof.
  unfold closeModal. destruct (modal_el m (dom w)); [reflexivity|].
  by rewrite app_nil_r.
Qed.

Lemma modal_data_lookup m :
  ({["modal" := VStr (modal_name m)]} : gmap string Value) !! "event" = None /\
  ({["modal" := VStr (modal_name m)]} : gmap string Value) !! "modal"
  = Some (VStr (modal_name m)).
Proof. split; by simplify_map_eq. Qed.

Lemma cta_then_open data button m w :
  data !! "event" = None -> data !! "button" = Some (VStr (js button)) ->
  cta_outcome button m w (openModal m (trackEvent (js "cta_clicked") data w)).
Proof.
  intros He Hb. unfold cta_outcome.
  rewrite openModal_events, openModal_dom, openModal_leads, trackEvent_events.
  change (dom (trackEvent (js "cta_clicked") data w)) with (dom w).
  change (leads (st (trackEvent (js "cta_clicked") data w))) with (leads (st w)).
  rewrite <- app_assoc. eexists. split; [reflexivity|].
  destruct (modal_data_lookup m) as [Hm1 Hm2].
  split; [by destruct (modal_el m (dom w))|]. split.
  - eexists. split; [apply elem_of_app; left; apply list_elem_of_singleton; reflexivity|].
    split; [by apply event_record_name | by apply event_record_lookup_data].
  - split; [|done]. intros [b Hm]. rewrite Hm. eexists.
    split; [apply elem_of_app; right; apply list_elem_of_singleton; reflexivity|].
    split; [by apply event_record_name | by apply event_record_lookup_data].
Qed.

Lemma open_then_cta data button m w :
  data !! "event" = None -> data !! "button" = Some (VStr (js button)) ->
  cta_outcome button m w (trackEvent (js "cta_clicked") data (openModal m w)).
Proof.
  intros He Hb. unfold cta_outcome.
  rewrite trackEvent_events.
  change (dom (trackEvent (js "cta_clicked") data (openModal m w)))
    with (dom (openModal m w)).
  change (leads (st (trackEvent (js "cta_clicked") data (openModal m w))))
    with (leads (st (openModal m w))).
  rewrite openModal_events, openModal_dom, openModal_leads.
  rewrite <- app_assoc. eexists. split; [reflexivity|].
  destruct (modal_data_lookup m) as [Hm1 Hm2].
  split; [by destruct (modal_el m (dom w))|]. split.
  - eexists. split; [apply elem_of_app; right; apply list_elem_of_singleton; reflexivity|].
    split; [by apply event_record_name | by apply event_record_lookup_data].
  - split; [|done]. intros [b Hm]. rewrite Hm. eexists.
    split; [apply elem_of_app; left; apply list_elem_of_singleton; reflexivity|].
    split; [by apply event_record_name | by apply event_record_lookup_data].
Qed.

(** X25. A click on one of the six call-to-action buttons appends one
    [cta_clicked] event that names the button and, when the modal of the
    button is on the page, one [modal_opened] event for it, and nothing
    else; the modal gets the class [active] and the page is locked; no lead
    is recorded. Without the modal element the click is tracked all the
    same and the document stays as it is. *)
Theorem X25_cta_click_tracks_and_opens (a : Action) (button : string) (m : Modal)
    (w : World) :
  (a, button, m) ∈ cta_buttons ->
  let w' := step a w in
  exists es,
    events (st w') = events (st w) ++ es /\
    length es = match modal_el m (dom w) with Some _ => 2%nat | None => 1%nat end /\
    (exists e, e ∈ es /\ e !! "event" = Some (VStr (js "cta_clicked")) /\
       e !! "button" = Some (VStr (js button))) /\
    (is_Some (modal_el m (dom w)) ->
     exists e, e ∈ es /\ e !! "event" = Some (VStr (js "modal_opened")) /\
       e !! "modal" = Some (VStr (modal_name m))) /\
    dom w' = open_dom m (dom w) /\
    leads (st w') = leads (st w).
Proof.
  intros Hin w'. subst w'. change (cta_outcome button m w (step a w)).
  apply list_elem_of_In in Hin. unfold cta_buttons in Hin. cbn [In] in Hin.
  destruct Hin as [H|[H|[H|[H|[H|[H|[]]]]]]]; injection H as <- <- <-; cbn [step];
    unfold cta_clicked;
    first [apply cta_then_open | apply open_then_cta]; by simplify_map_eq.
Qed.

Lemma X25_cta_click_witness :
  body_overflow (dom (step FabClick (sample_world "Ann" "a@b.co" "1234567890" "a@b.co")))
  = js "hidden".
Proof.
  destruct (X25_cta_click_tracks_and_opens FabClick "fab" choice
              (sample_world "Ann" "a@b.co" "1234567890" "a@b.co"))
    as (es & _ & _ & _ & _ & H & _).
  - apply list_elem_of_In. cbn. tauto.
  - rewrite H. vm_compute. reflexivity.
Defined.

(** X26. A choice made in the choice modal hands over to the modal of the
    chosen form: the choice modal loses the class [active], the chosen one
    gets it, the page stays locked, and the two events appended are a
    [modal_closed] for [choice] followed by a [modal_opened] for the chosen
    modal; no [cta_clicked] event is tracked. *)
Theorem X26_choice_hands_over (a : Action) (m : Modal) (w : World) :
  (a, m) ∈ [(ChoiceEnterpriseClick, enterprise); (ChoiceCarrierClick, carrier)] ->
  is_Some (modal_el choice (dom w)) -> is_Some (modal_el m (dom w)) ->
  let w' := step a w in
  modal_el choice (dom w') = Some false /\
  modal_el m (dom w') = Some true /\
  body_overflow (dom w') = js "hidden" /\
  (exists e1 e2,
     events (st w') = events (st w) ++ [e1; e2] /\
     e1 !! "event" = Some (VStr (js "modal_closed")) /\
     e1 !! "modal" = Some (VStr (js "choice")) /\
     e2 !! "event" = Some (VStr (js "modal_opened")) /\
     e2 !! "modal" = Some (VStr (modal_name m))) /\
  leads (st w') = leads (st w).
Proof.
  intros Hin [b1 H1] [b2 H2] w'. subst w'.
  assert (Hs : step a w = openModal m (closeModal choice w)).
  { apply list_elem_of_In in Hin. cbn [In] in Hin.
    destruct Hin as [H|[H|[]]]; by injection H as <- <-. }
  assert (Hm : m <> choice).
  { apply list_elem_of_In in Hin. cbn [In] in Hin.
    destruct Hin as [H|[H|[]]]; by injection H as <- <-. }
  rewrite Hs, openModal_dom, closeModal_dom, openModal_events, closeModal_dom,
    closeModal_events_eq, openModal_leads, closeModal_leads, H1.
  assert (H2' : modal_el m (close_dom choice (dom w)) = Some b2).
  { unfold close_dom. rewrite H1. destruct (dom w) as []. by destruct m. }
  rewrite H2'. unfold open_dom. rewrite H2'. unfold close_dom. rewrite H1.
  destruct (modal_data_lookup m) as [Hm1 Hm2].
  destruct (modal_data_lookup choice) as [Hc1 Hc2].
  split; [destruct (dom w) as []; by destruct m|].
  split; [destruct (dom w) as []; by destruct m|].
  split; [reflexivity|]. split; [|reflexivity].
  eexists. eexists. split; [by rewrite <- app_assoc|].
  split; [by apply event_record_name|]. split; [by apply event_record_lookup_data|].
  split; [by apply event_record_name | by apply event_record_lookup_data].
Qed.

Lemma X26_choice_witness :
  modal_el choice
    (dom (step ChoiceCarrierClick (sample_world "Ann" "a@b.co" "1234567890" "a@b.co")))
  = Some false /\
  modal_el carrier
    (dom (step ChoiceCarrierClick (sample_world "Ann" "a@b.co" "1234567890" "a@b.co")))
  = Some true.
Proof.
  destruct (X26_choice_hands_over ChoiceCarrierClick carrier
              (sample_world "Ann" "a@b.co" "1234567890" "a@b.co"))
    as (H1 & H2 & _).
  - apply list_elem_of_In. cbn. tauto.
  - by eexists.
  - by eexists.
  - split; [exact H1 | exact H2].
Defined.
